(** * swingplayback: ring frame buffer, loudness detector, capture stream and
    clip playback

    A shallow embedding of the Go sources [video.go] and [audio.go].  Go
    [int] and [time.Duration] values are integers of [Z] (with the 64-bit
    wrap-around written out where an operation can leave the range), slices
    are lists, [float64] is the kernel's binary64 [float], and every call
    into gocv, fmt and time is recorded as an event of an explicit trace. *)

From Stdlib Require Import ZArith List String Ascii Lia Bool Floats Uint63.
From stdpp Require Import base list.
Import ListNotations.

Local Open Scope string_scope.
Local Open Scope list_scope.
Local Open Scope Z_scope.

(** ** Shared data *)

(** [gocv.Mat] is a handle on a native image.  The zero value [gocv.Mat{}]
    is what [make([]gocv.Mat, n)] fills a fresh slice with; every other
    frame is identified by its handle and knows whether it is empty
    ([Mat.Empty]). *)
Inductive Mat : Type :=
| MatZero
| MatData (id : nat) (empty : bool).

Definition Empty (m : Mat) : bool :=
  match m with
  | MatZero => true
  | MatData _ e => e
  end.

(** A Go [error]: one returned by gocv, or one built by [fmt.Errorf] from a
    format and its integer arguments, [ErrorfW] when the format ends in [%w]
    and wraps another error. *)
Inductive error : Type :=
| ExternalErr (msg : string)
| Errorf (format : string) (args : list Z)
| ErrorfW (format : string) (args : list Z) (wrapped : error).

(** The arguments of a [fmt.Printf]. *)
Inductive Arg : Type :=
| AInt (z : Z)
| AFloat (f : float)
| AStr (s : string)
| AErr (e : error).

(** The clip files on disk: the frames of each file that exists. *)
Definition Files : Type := string -> option (list Mat).

Definition no_files : Files := fun _ => None.

Definition write_file (files : Files) (file : string) (content : list Mat)
  : Files :=
  fun name => if String.eqb name file then Some content else files name.

(** [len] of a slice, as a Go [int]. *)
Definition len {A : Type} (l : list A) : Z := Z.of_nat (length l).

(** The last [n] elements of a list, oldest first. *)
Definition lastn {A : Type} (n : nat) (l : list A) : list A :=
  drop (length l - n)%nat l.

(** ** VideoFrameBuffer ([video.go]) *)

Module Buffer.

(** What the buffer does to the outside world. *)
Inductive Event : Type :=
| EvClose (m : Mat)
| EvPrintf (format : string) (args : list Arg)
| EvVideoWriterFile (file codec : string) (fps : float) (width height : Z)
    (isColor : bool) (ok : bool)
| EvWrite (m : Mat) (ok : bool)
| EvWriterClose.

(** The gocv video writer, as far as [Save] can observe it: whether
    opening [file] fails, and whether the write of the [k]-th frame
    fails. *)
Record VideoWriter : Type := {
  open_err : string -> option error;
  write_err : nat -> Mat -> option error
}.

Record VideoFrameBuffer : Type := {
  frames : list Mat;
  idx : Z
}.

(** [make([]gocv.Mat, maxFrames)] panics on a negative length. *)
Definition NewVideoFrameBuffer (maxFrames : Z) : option VideoFrameBuffer :=
  if maxFrames <? 0 then None
  else Some {| frames := replicate (Z.to_nat maxFrames) MatZero; idx := 0 |}.

Definition Full (v : VideoFrameBuffer) : bool := idx v =? len (frames v).

(** [Append]; [None] is a run-time panic (index out of range).  In the
    first branch [idx < len frames], so [idx + 1] stays an [int]. *)
Definition Append (v : VideoFrameBuffer) (frame : Mat)
  : option (VideoFrameBuffer * list Event) :=
  if idx v <? len (frames v) then
    if idx v <? 0 then None
    else Some ({| frames := <[Z.to_nat (idx v) := frame]> (frames v);
                  idx := idx v + 1 |}, [])
  else
    match frames v with
    | [] => None
    | old :: rest =>
        Some ({| frames := rest ++ [frame]; idx := idx v |}, [EvClose old])
    end.

(** The [for idx, frame := range v.frames] loop of [Save], from index [k]. *)
Fixpoint write_frames (w : VideoWriter) (k : nat) (fs : list Mat)
  : option error * list Event :=
  match fs with
  | [] => (None, [])
  | frame :: rest =>
      match write_err w k frame with
      | Some err =>
          (Some (ErrorfW "error writing frame (%d): %w" [Z.of_nat k] err),
           [EvWrite frame false])
      | None =>
          let '(r, evs) := write_frames w (S k) rest in
          (r, EvWrite frame true :: evs)
      end
  end.

Definition Save (w : VideoWriter) (v : VideoFrameBuffer) (file : string)
    (width height : Z) (fps : float) : option error * list Event :=
  if negb (Full v) then
    (Some (Errorf "video frame buffer is not full (%d/%d)"
             [idx v; len (frames v)]), [])
  else
    let banner :=
      [ EvPrintf "--------------------------------------------------\n" [];
        EvPrintf "video frame buffer is full (%d)\nparameters:\n\twidth: %d\n\theight: %d\n\tfps: %f\n"
          [AInt (len (frames v)); AInt width; AInt height; AFloat fps];
        EvPrintf "--------------------------------------------------\n" [] ] in
    match open_err w file with
    | Some err =>
        (Some (ErrorfW "error creating video writer: %w" [] err),
         banner ++ [EvVideoWriterFile file "MJPG" fps width height true false])
    | None =>
        let '(r, evs) := write_frames w 0 (frames v) in
        (r, banner ++ [EvVideoWriterFile file "MJPG" fps width height true true]
              ++ evs ++ [EvWriterClose])
    end.

(** A run of the capture loop's appends, in order. *)
Fixpoint appends (v : VideoFrameBuffer) (fs : list Mat)
  : option (VideoFrameBuffer * list Event) :=
  match fs with
  | [] => Some (v, [])
  | f :: fs' =>
      match Append v f with
      | None => None
      | Some (v', e) =>
          match appends v' fs' with
          | None => None
          | Some (v'', e') => Some (v'', e ++ e')
          end
      end
  end.

(** The frames the writer received, in the order of the writes. *)
Definition written (evs : list Event) : list Mat :=
  flat_map (fun e => match e with EvWrite m true => [m] | _ => [] end) evs.

(** The writer was asked for at all. *)
Definition touches_writer (e : Event) : bool :=
  match e with
  | EvVideoWriterFile _ _ _ _ _ _ _ | EvWrite _ _ | EvWriterClose => true
  | _ => false
  end.

(** A writer that never fails. *)
Definition writer_ok (w : VideoWriter) : Prop :=
  (forall file, open_err w file = None) /\
  (forall k m, write_err w k m = None).

(** The buffer after the frames [hist] were appended to a fresh buffer of
    [n] slots: the last [n] of them, oldest first, then the free slots. *)
Definition holds (n : nat) (hist : list Mat) (v : VideoFrameBuffer) : Prop :=
  frames v = lastn n hist ++ replicate (n - length hist)%nat MatZero /\
  idx v = Z.of_nat (Nat.min (length hist) n).

End Buffer.


(** ** Go's [time] package, as the code uses it *)

Module GoTime.

(** A [time.Time] is the instant it denotes, counted in nanoseconds from the
    zero [Time]; a [time.Duration] is an [int64] count of nanoseconds. *)
Definition Time : Type := Z.
Definition Duration : Type := Z.

Definition zeroTime : Time := 0.

Definition minDuration : Duration := - 2 ^ 63.
Definition maxDuration : Duration := 2 ^ 63 - 1.

Definition is_Duration (d : Z) : Prop := minDuration <= d <= maxDuration.

(** [int64] arithmetic wraps around. *)
Definition wrap64 (z : Z) : Z := (z + 2 ^ 63) mod 2 ^ 64 - 2 ^ 63.

(** [t.Add(d)] and [t.After(u)]. *)
Definition Add (t : Time) (d : Duration) : Time := t + d.
Definition After (t u : Time) : bool := u <? t.

(** [t.Sub(u)] saturates at the largest and smallest [Duration];
    [time.Since(t)] is [time.Now().Sub(t)]. *)
Definition Sub (t u : Time) : Duration :=
  Z.max minDuration (Z.min maxDuration (t - u)).
Definition Since (now t : Time) : Duration := Sub now t.

(** [time.Sleep(d)] returns at once when [d <= 0], otherwise after [d]. *)
Definition slept (d : Duration) : Duration := Z.max 0 d.

Definition Millisecond : Duration := 1000000.
Definition Second : Duration := 1000000000.

End GoTime.

(** ** The loudness detector ([audio.go]) *)

Module Audio.

Import GoTime.

Definition DefaultClubStrikeDecibelThreshold : float := 90%float.
Definition DefaultMinDetectionInterval : Duration := 5 * Second.

(** [float64(n)] for a Go integer [n]. *)
Definition float64_of_int (n : Z) : float :=
  if n <? 0 then PrimFloat.opp (PrimFloat.of_uint63 (Uint63.of_Z (- n)))
  else PrimFloat.of_uint63 (Uint63.of_Z n).

Definition maxSignalLength : Z := 4410.

(** The audio goroutine's update of the rolling window [bite] with one block
    of samples: append, then keep the last [maxSignalLength] samples. *)
Definition intake (bite : list float) (buffer : list Z) : list float :=
  let data := map float64_of_int buffer in
  let bite := bite ++ data in
  if len bite >? maxSignalLength
  then drop (Z.to_nat (len bite - maxSignalLength)) bite
  else bite.

(** [calculateRMS]. *)
Definition calculateRMS (samples : list float) : float :=
  let sum :=
    fold_left (fun sum sample => PrimFloat.add sum (PrimFloat.mul sample sample))
      samples 0%float in
  let mean := PrimFloat.div sum (float64_of_int (len samples)) in
  PrimFloat.sqrt mean.

Definition referenceLevel : float := 32768%float.

(** [math.Log10] outside its special cases is whatever the Go library
    computes; [Log10_of approx] is a function with Go's documented special
    cases (NaN for NaN and negative arguments, -Inf at zero, +Inf at +Inf)
    around an arbitrary [approx]. *)
Definition Log10_of (approx : float -> float) (x : float) : float :=
  if PrimFloat.is_nan x then nan
  else if PrimFloat.ltb x 0%float then nan
  else if PrimFloat.eqb x 0%float then neg_infinity
  else if PrimFloat.is_infinity x then infinity
  else approx x.

Record Detection : Type := {
  Decibel : float;
  DetectionTime : Time
}.

Inductive Event : Type :=
| EvPrintf (format : string) (args : list Arg)
| EvDetection (d : Detection).

(** The detection loop's variables: [lastDetection], and how many times
    [time.Now()] was called so far. *)
Record Ticker : Type := {
  lastDetection : Time;
  nowCalls : nat
}.

(** What one tick finds: the rolling window, and whether the one-in-five
    logging sample [rand.Float64() > 0.8] came out true. *)
Record Tick : Type := {
  bite : list float;
  sampled : bool
}.

Section Detection.

(** [math.Log10]; the result of the [k]-th call of [time.Now()]; the two
    settings of the detector. *)
Variable Log10 : float -> float.
Variable clock : nat -> Time.
Variable decibleThreshold : float.
Variable minDetectionInterval : Duration.

(** [calculateDecibels]. *)
Definition calculateDecibels (signal : list float) : float :=
  let rms := calculateRMS signal in
  if PrimFloat.eqb rms 0%float then PrimFloat.opp infinity
  else PrimFloat.mul 20%float (Log10 (PrimFloat.div rms referenceLevel)).

(** One iteration of [for range detectTicker] in [StartDetection]. *)
Definition tick (s : Ticker) (i : Tick) : Ticker * list Event :=
  let decibels := calculateDecibels (bite i) in
  let logged :=
    if sampled i then [EvPrintf "Sound level: %f dB\n" [AFloat decibels]]
    else [] in
  if PrimFloat.ltb decibleThreshold decibels then
    let now1 := clock (nowCalls s) in
    if After (Add now1 (wrap64 (- minDetectionInterval))) (lastDetection s) then
      let now2 := clock (S (nowCalls s)) in
      let now3 := clock (S (S (nowCalls s))) in
      ({| lastDetection := now2; nowCalls := S (S (S (nowCalls s))) |},
       logged ++ [EvDetection {| Decibel := decibels; DetectionTime := now3 |}])
    else
      ({| lastDetection := lastDetection s; nowCalls := S (nowCalls s) |}, logged)
  else (s, logged).

(** The loop over the ticks that arrive: after each tick, the variables and
    what the tick did. *)
Fixpoint run (s : Ticker) (ticks : list Tick) : list (Ticker * list Event) :=
  match ticks with
  | [] => []
  | i :: rest => let r := tick s i in r :: run (fst r) rest
  end.

End Detection.

(** [var lastDetection time.Time], before the first tick. *)
Definition start : Ticker := {| lastDetection := zeroTime; nowCalls := 0 |}.

(** The Detections a tick sent on the channel. *)
Definition detections (evs : list Event) : list Detection :=
  flat_map (fun e => match e with EvDetection d => [d] | _ => [] end) evs.

End Audio.

(** ** Clip files and their names ([video.go]) *)

Module Clip.

(** The fields of a [time.Time] that the layout ["2006-01-02 15-04-05"]
    prints. *)
Record Civil : Type := {
  year : Z;
  month : Z;
  day : Z;
  hour : Z;
  minute : Z;
  second : Z
}.

(** The calendar values [time.Now()] can have for a four-digit year. *)
Definition valid (t : Civil) : Prop :=
  0 <= year t <= 9999 /\ 1 <= month t <= 12 /\ 1 <= day t <= 31 /\
  0 <= hour t <= 23 /\ 0 <= minute t <= 59 /\ 0 <= second t <= 59.

Definition digit (n : Z) : ascii := ascii_of_nat (48 + Z.to_nat (n mod 10)).

(** The decimal digits of [u >= 0] in front of [acc]. *)
Fixpoint utoa (fuel : nat) (u : Z) (acc : string) : string :=
  match fuel with
  | O => acc
  | S fuel' =>
      let acc' := String (digit u) acc in
      if u <? 10 then acc' else utoa fuel' (u / 10) acc'
  end.

Fixpoint zeros (n : nat) : string :=
  match n with
  | O => EmptyString
  | S n' => String "0" (zeros n')
  end.

(** The [time] package's [appendInt]: a sign, then the decimal digits
    padded with zeros to [width]. *)
Definition appendInt (x : Z) (width : nat) : string :=
  let ds := utoa 20 (Z.abs x) EmptyString in
  ((if (x <? 0)%Z then "-" else "") ++ zeros (width - String.length ds) ++ ds)%string.

(** [t.Format("2006-01-02 15-04-05")]. *)
Definition Format (t : Civil) : string :=
  (appendInt (year t) 4 ++ "-" ++ appendInt (month t) 2 ++ "-" ++
   appendInt (day t) 2 ++ " " ++ appendInt (hour t) 2 ++ "-" ++
   appendInt (minute t) 2 ++ "-" ++ appendInt (second t) 2)%string.

(** [fmt.Sprintf("videos/%s %s.avi", t, v.name)] in [VideoProfile.Start]. *)
Definition clipFile (name : string) (t : Civil) : string :=
  ("videos/" ++ Format t ++ " " ++ name ++ ".avi")%string.

(** The naming the specification gives, for comparison:
    [<stream-name> <timestamp>.<ext>] under a directory. *)
Definition spec_clipFile (dir name timestamp ext : string) : string :=
  (dir ++ name ++ " " ++ timestamp ++ "." ++ ext)%string.

Definition is_digit (c : ascii) : bool :=
  (48 <=? nat_of_ascii c)%nat && (nat_of_ascii c <=? 57)%nat.

(** [s] follows [layout]: a digit wherever the layout has one of the
    letters Y, M, D, H, S, and the layout's own character elsewhere. *)
Fixpoint follows (layout s : string) : bool :=
  match layout, s with
  | EmptyString, EmptyString => true
  | String p layout', String c s' =>
      (if existsb (Ascii.eqb p) ["Y"; "M"; "D"; "H"; "S"]%char
       then is_digit c else Ascii.eqb p c) && follows layout' s'
  | _, _ => false
  end.

(** [p] occurs in [s]. *)
Fixpoint occurs (p s : string) : bool :=
  String.prefix p s ||
  match s with
  | EmptyString => false
  | String _ s' => occurs p s'
  end.

End Clip.

(** ** VideoPlayback ([video.go]) *)

Module Playback.

Definition DefaultFPS : float := 120%float.
Definition DefaultPlaybackSpeed : float := 0.25%float.

Record VideoPlayback : Type := {
  camName : string;
  file : string;
  fps : float
}.

Definition NewVideoPlayback (camName file : string) (fps : float)
  : VideoPlayback :=
  {| camName := camName; file := file; fps := fps |}.

(** What a playback does to the outside world.  [EvShow f] is the hand-off
    [window.Input() <- f]; [f] is the one Mat that each [video.Read] refills,
    and the event records what it holds at the hand-off. *)
Inductive Event : Type :=
| EvVideoCaptureFile (file : string) (ok : bool)
| EvPrintf (format : string) (args : list Arg)
| EvShow (f : Mat)
| EvSleep (frameDelay : float)
| EvVideoClose
| EvMatClose.

(** Where [Start] stands: about to open the file; about to read, with the
    frames of the file still unread; at the [select] on [v.stop] with the
    frame just read; at the hand-off to the window; at the [Sleep]; or
    returned. *)
Inductive PC : Type :=
| AtOpen
| AtRead (rest : list Mat)
| AtSelect (f : Mat) (rest : list Mat)
| AtSend (f : Mat) (rest : list Mat)
| AtSleep (rest : list Mat)
| Returned.

Definition frameDelay (v : VideoPlayback) (playbackSpeed : float) : float :=
  PrimFloat.div (PrimFloat.div (Audio.float64_of_int GoTime.Second) (fps v))
    playbackSpeed.

(** One step of [Start].  [files] are the clips on disk; [stop_ready] says
    whether a sender is waiting on [v.stop] when the [select] is reached
    (only then is the [case <-v.stop] taken rather than the [default]). *)
Definition step (files : Files) (stop_ready : bool)
    (v : VideoPlayback) (playbackSpeed : float) (pc : PC) : PC * list Event :=
  match pc with
  | AtOpen =>
      match files (file v) with
      | None =>
          (Returned,
           [EvVideoCaptureFile (file v) false;
            EvPrintf "Error opening video file %s: %v\n"
              [AStr (file v); AErr (ExternalErr "Error opening file")];
            EvMatClose])
      | Some clip => (AtRead clip, [EvVideoCaptureFile (file v) true])
      end
  | AtRead [] =>
      (AtOpen,
       [EvPrintf ">>>>>>>> Restarting %s video playback\n" [AStr (camName v)];
        EvVideoClose])
  | AtRead (f :: rest) =>
      if Empty f then (AtRead rest, []) else (AtSelect f rest, [])
  | AtSelect f rest =>
      if stop_ready
      then (Returned,
            [EvPrintf ">>>>>>>> %s video playback stopped\n" [AStr (camName v)];
             EvMatClose])
      else (AtSend f rest, [])
  | AtSend f rest => (AtSleep rest, [EvShow f])
  | AtSleep rest => (AtRead rest, [EvSleep (frameDelay v playbackSpeed)])
  | Returned => (Returned, [])
  end.

(** A playback on its own: its position, how many times it reached the
    [select], and what it did so far, oldest first. *)
Record Run : Type := {
  pc : PC;
  selects : nat;
  trace : list Event
}.

(** [stop_at k] says whether a stop is waiting at the [k]-th [select]. *)
Definition step1 (files : Files) (stop_at : nat -> bool)
    (v : VideoPlayback) (playbackSpeed : float) (r : Run) : Run :=
  let at_select := match pc r with AtSelect _ _ => true | _ => false end in
  let next := step files (at_select && stop_at (selects r)) v playbackSpeed (pc r) in
  {| pc := fst next;
     selects := if at_select then S (selects r) else selects r;
     trace := trace r ++ snd next |}.

Fixpoint exec (files : Files) (stop_at : nat -> bool)
    (v : VideoPlayback) (playbackSpeed : float) (fuel : nat) (r : Run) : Run :=
  match fuel with
  | O => r
  | S fuel' =>
      exec files stop_at v playbackSpeed fuel'
        (step1 files stop_at v playbackSpeed r)
  end.

Definition start : Run := {| pc := AtOpen; selects := 0; trace := [] |}.

(** The frames handed to the window, in order. *)
Definition shown (evs : list Event) : list Mat :=
  flat_map (fun e => match e with EvShow f => [f] | _ => [] end) evs.

(** The frames of a clip that [Start] hands on: the non-empty ones. *)
Definition playable (clip : list Mat) : list Mat :=
  List.filter (fun f => negb (Empty f)) clip.

End Playback.

(** ** VideoProfile: the capture stream ([video.go]) *)

Module Capture.

Import GoTime.

Definition DefaultSecondsToRecord : Z := 4.
Definition DefaultDurationToCaptureAfterEvent : Duration :=
  DefaultSecondsToRecord * Second / 2.

(** The fields of a [VideoProfile] the code below reads; the camera handle
    and the two channels are the environment of the steps. *)
Record VideoProfile : Type := {
  name : string;
  durationToCaptureAfterEvent : Duration
}.

(** *** [VideoProfile.Save] *)

Inductive SaveEvent : Type :=
| EvPrintf (format : string) (args : list Arg)
| EvSleep (d : Duration)
| EvSendSave.

(** [Save], called at the instant [now]: what it does, in order. *)
Definition Save (v : VideoProfile) (now : Time) (detection : Audio.Detection)
  : list SaveEvent :=
  let elapsed := Since now (Audio.DetectionTime detection) in
  let delay := wrap64 (durationToCaptureAfterEvent v - elapsed) in
  [EvPrintf "delaying saving video by %s\n" [AInt delay];
   EvSleep delay;
   EvSendSave].

(** The instant at which a trace of [Save] started at [now] reaches its
    send on [v.save], when nothing but [time.Sleep] takes time. *)
Fixpoint send_time (now : Time) (evs : list SaveEvent) : option Time :=
  match evs with
  | [] => None
  | EvSendSave :: _ => Some now
  | EvSleep d :: rest => send_time (now + slept d) rest
  | EvPrintf _ _ :: rest => send_time now rest
  end.

(** *** [VideoProfile.Start] and the playbacks it starts *)

(** Where the capture loop stands: at its [select]; inside
    [playback.Stop()], blocked on the send to the stop channel of playback
    [p]; past that, about to save the buffer; or out of the loop. *)
Inductive LoopPC : Type :=
| LSelect
| LStopPlayback (p : nat)
| LSave
| LExited.

Inductive Event : Type :=
| EvLog (format : string) (args : list Arg)
| EvBuffer (e : Buffer.Event)
| EvStopped (p : nat)
| EvGo (p : nat)
| EvPlayback (p : nat) (e : Playback.Event).

(** One capture stream with the playback goroutines it has started, in the
    order of their creation; [playback] is the loop's variable of that name,
    pointing at one of them.  [log] has the newest event first. *)
Record System : Type := {
  loop : LoopPC;
  frameBuffer : Buffer.VideoFrameBuffer;
  playback : option nat;
  playbacks : list (Playback.VideoPlayback * Playback.PC);
  files : Files;
  log : list Event
}.

(** The clip file after a [Buffer.Save] with trace [evs]: written (perhaps
    in part) once the writer was opened. *)
Definition stored (files : Files) (file : string)
    (evs : list Buffer.Event) : Files :=
  if existsb (fun e => match e with
                       | Buffer.EvVideoWriterFile _ _ _ _ _ _ true => true
                       | _ => false
                       end) evs
  then write_file files file (Buffer.written evs)
  else files.

Definition logged (evs : list Event) (s : System) : System :=
  {| loop := loop s; frameBuffer := frameBuffer s; playback := playback s;
     playbacks := playbacks s; files := files s; log := rev evs ++ log s |}.

(** The steps of the system.  The environment decides which case of the
    loop's [select] is ready, what the camera and the clock return and
    whether the video writer fails; a playback moves by [Playback.step],
    taking the stop branch of its [select] exactly when the loop is blocked
    in [Stop] on it, in which case the two move together. *)
Inductive step (v : VideoProfile) : System -> System -> Prop :=
| step_stop (s : System) :
    loop s = LSelect ->
    step v s
      (logged [EvLog ">>>>>>>> video profile capturing stopped for camera %s\n"
                 [AStr (name v)]]
         {| loop := LExited; frameBuffer := frameBuffer s;
            playback := playback s; playbacks := playbacks s;
            files := files s; log := log s |})
| step_save_playing (s : System) (p : nat) (pv : Playback.VideoPlayback)
    (pc : Playback.PC) :
    loop s = LSelect -> playback s = Some p ->
    playbacks s !! p = Some (pv, pc) ->
    step v s
      (logged [EvLog "stopping %s video playback\n" [AStr (Playback.camName pv)]]
         {| loop := LStopPlayback p; frameBuffer := frameBuffer s;
            playback := playback s; playbacks := playbacks s;
            files := files s; log := log s |})
| step_save_idle (s : System) :
    loop s = LSelect -> playback s = None ->
    step v s
      {| loop := LSave; frameBuffer := frameBuffer s; playback := playback s;
         playbacks := playbacks s; files := files s; log := log s |}
| step_stop_received (s : System) (p : nat) (pv : Playback.VideoPlayback)
    (f : Mat) (rest : list Mat) :
    loop s = LStopPlayback p ->
    playbacks s !! p = Some (pv, Playback.AtSelect f rest) ->
    let next := Playback.step (files s) true pv Playback.DefaultPlaybackSpeed
                  (Playback.AtSelect f rest) in
    step v s
      (logged (map (EvPlayback p) (snd next) ++ [EvStopped p])
         {| loop := LSave; frameBuffer := frameBuffer s; playback := playback s;
            playbacks := <[p := (pv, fst next)]> (playbacks s);
            files := files s; log := log s |})
| step_save_failed (s : System) (w : Buffer.VideoWriter) (t : Clip.Civil)
    (width height : Z) (fps : float) (err : error) (evs : list Buffer.Event) :
    loop s = LSave ->
    Buffer.Save w (frameBuffer s) (Clip.clipFile (name v) t) width height fps
      = (Some err, evs) ->
    step v s
      (logged ([EvLog "saving video for %s\n" [AStr (name v)]]
               ++ map EvBuffer evs
               ++ [EvLog "error saving video: %v\n" [AErr err]])
         {| loop := LSelect; frameBuffer := frameBuffer s;
            playback := playback s; playbacks := playbacks s;
            files := stored (files s) (Clip.clipFile (name v) t) evs;
            log := log s |})
| step_save_played (s : System) (w : Buffer.VideoWriter) (t : Clip.Civil)
    (width height : Z) (fps : float) (evs : list Buffer.Event) :
    loop s = LSave ->
    Buffer.Save w (frameBuffer s) (Clip.clipFile (name v) t) width height fps
      = (None, evs) ->
    step v s
      (logged ([EvLog "saving video for %s\n" [AStr (name v)]]
               ++ map EvBuffer evs
               ++ [EvGo (length (playbacks s))])
         {| loop := LSelect; frameBuffer := frameBuffer s;
            playback := Some (length (playbacks s));
            playbacks :=
              playbacks s ++
              [(Playback.NewVideoPlayback (name v)
                  (Clip.clipFile (name v) t) Playback.DefaultFPS,
                Playback.AtOpen)];
            files := stored (files s) (Clip.clipFile (name v) t) evs;
            log := log s |})
| step_no_frame (s : System) :
    loop s = LSelect -> step v s s
| step_frame (s : System) (cloned : Mat) (b : Buffer.VideoFrameBuffer)
    (evs : list Buffer.Event) :
    loop s = LSelect ->
    Buffer.Append (frameBuffer s) cloned = Some (b, evs) ->
    step v s
      (logged (map EvBuffer evs)
         {| loop := loop s; frameBuffer := b; playback := playback s;
            playbacks := playbacks s; files := files s; log := log s |})
| step_playback (s : System) (p : nat) (pv : Playback.VideoPlayback)
    (pc : Playback.PC) :
    playbacks s !! p = Some (pv, pc) ->
    pc <> Playback.Returned ->
    (forall f rest, pc = Playback.AtSelect f rest -> loop s <> LStopPlayback p) ->
    let next := Playback.step (files s) false pv Playback.DefaultPlaybackSpeed pc in
    step v s
      (logged (map (EvPlayback p) (snd next))
         {| loop := loop s; frameBuffer := frameBuffer s; playback := playback s;
            playbacks := <[p := (pv, fst next)]> (playbacks s);
            files := files s; log := log s |}).

(** [Start]: a fresh buffer of [int(DefaultFPS) * secondsToRecord] slots, no
    playback. *)
Definition initial (b : Buffer.VideoFrameBuffer)
    (files : Files) : System :=
  {| loop := LSelect; frameBuffer := b; playback := None; playbacks := [];
     files := files; log := [] |}.

Inductive reachable (v : VideoProfile) (s0 : System) : System -> Prop :=
| reach_start : reachable v s0 s0
| reach_step (s s' : System) :
    reachable v s0 s -> step v s s' -> reachable v s0 s'.


(** Playback [p] has not returned. *)
Definition running (s : System) (p : nat) : Prop :=
  exists pv pc, playbacks s !! p = Some (pv, pc) /\ pc <> Playback.Returned.

End Capture.

(** ** Predicates of the statements *)




(** The fill count stays between 0 and the number of slots. *)
Definition fill_count_in_range (v : Buffer.VideoFrameBuffer) : Prop :=
  0 <= Buffer.idx v <= len (Buffer.frames v).

(** The clock never runs backwards. *)
Definition monotone (clock : nat -> GoTime.Time) : Prop :=
  forall a b, (a <= b)%nat -> clock a <= clock b.

(** [lastDetection] is not ahead of the next clock reading. *)
Definition settled (clock : nat -> GoTime.Time) (s : Audio.Ticker) : Prop :=
  Audio.lastDetection s <= clock (Audio.nowCalls s).

(** No stop is waiting at the first [j] selects. *)
Definition quiet_before (stop_at : nat -> bool) (j : nat) : Prop :=
  forall k, (k < j)%nat -> stop_at k = false.

(** The playback has returned only if a stop was waiting at one of the
    selects it went through. *)
Definition returned_on_stop (stop_at : nat -> bool) (r : Playback.Run) : Prop :=
  Playback.pc r = Playback.Returned ->
  exists k, (k < Playback.selects r)%nat /\ stop_at k = true.

(** ** Values used in the examples *)

(** A loud window for the examples: one sample at the reference level, with
    a logarithm that answers 4 away from the special cases, reads 80 dB. *)
Definition loud : Audio.Tick :=
  {| Audio.bite := [32768%float]; Audio.sampled := false |}.

Definition tenth_of_second_clock (k : nat) : GoTime.Time :=
  10000000000 + Z.of_nat k * (100 * GoTime.Millisecond).



(** The time used in the examples: 2024-01-02 03:04:05. *)
Definition an_instant : Clip.Civil :=
  {| Clip.year := 2024; Clip.month := 1; Clip.day := 2;
     Clip.hour := 3; Clip.minute := 4; Clip.second := 5 |}.

(** A clip of two frames on disk, for the examples. *)
Definition two_frames : list Mat := [MatData 1 false; MatData 2 false].

Definition disk : Files :=
  write_file no_files "videos/2024-01-02 03-04-05 front.avi" two_frames.

Definition front_playback : Playback.VideoPlayback :=
  Playback.NewVideoPlayback "front" "videos/2024-01-02 03-04-05 front.avi"
    Playback.DefaultFPS.

Definition front : Capture.VideoProfile :=
  {| Capture.name := "front";
     Capture.durationToCaptureAfterEvent :=
       Capture.DefaultDurationToCaptureAfterEvent |}.

Definition full_buffer : Buffer.VideoFrameBuffer :=
  {| Buffer.frames := two_frames; Buffer.idx := 2 |}.

Definition good_writer : Buffer.VideoWriter :=
  {| Buffer.open_err := fun _ => None; Buffer.write_err := fun _ _ => None |}.

(** ** Tactics for running the capture model forward *)

Ltac evaluate_state H :=
  match type of H with
  | Capture.reachable ?v ?s0 ?s =>
      let s' := eval vm_compute in s in
      change (Capture.reachable v s0 s') in H
  end.

Ltac playback_moves H p :=
  eapply Capture.reach_step in H;
  [| eapply (Capture.step_playback _ _ p);
     [ reflexivity | discriminate | intros; discriminate ] ];
  evaluate_state H.

Ltac buffer_saved H :=
  eapply Capture.reach_step in H;
  [| eapply (Capture.step_save_played front _ good_writer an_instant
               1280 720 120%float);
     [reflexivity | vm_compute; reflexivity] ];
  evaluate_state H.


(** * Further code and the predicates of its properties *)


(** How many times a trace called [VideoWriter.Write]. *)
Definition write_calls (evs : list Buffer.Event) : nat :=
  length (List.filter
            (fun e => match e with Buffer.EvWrite _ _ => true | _ => false end)
            evs).

(** A writer whose second write fails, for the examples. *)
Definition second_write_fails : Buffer.VideoWriter :=
  {| Buffer.open_err := fun _ => None;
     Buffer.write_err := fun k _ =>
       if (k =? 1)%nat then Some (ExternalErr "disk full") else None |}.

(** The rolling window after the audio goroutine took in the blocks read
    from the stream, in order. *)
Definition intakes (bite : list float) (blocks : list (list Z)) : list float :=
  fold_left Audio.intake blocks bite.

(** All the samples of the blocks are zero. *)
Definition silence (blocks : list (list Z)) : Prop :=
  Forall (Forall (fun sample => sample = 0)) blocks.

(** No tick of the list is above the threshold. *)
Definition all_below (Log10 : float -> float) (thr : float)
    (ticks : list Audio.Tick) : Prop :=
  Forall (fun t => PrimFloat.ltb thr
                     (Audio.calculateDecibels Log10 (Audio.bite t)) = false)
    ticks.

(** Every tick of the list is above the threshold. *)
Definition all_above (Log10 : float -> float) (thr : float)
    (ticks : list Audio.Tick) : Prop :=
  Forall (fun t => PrimFloat.ltb thr
                     (Audio.calculateDecibels Log10 (Audio.bite t)) = true)
    ticks.

(** A clock for a burst: from 10 s on, 100 ms more at each of the first
    nine calls, and no more after. *)
Definition burst_clock (k : nat) : GoTime.Time :=
  10 * GoTime.Second + Z.of_nat (Nat.min k 9) * (100 * GoTime.Millisecond).

(** The frames of the file a playback plays; none when it does not open. *)
Definition clip_of (files : Files) (v : Playback.VideoPlayback) : list Mat :=
  match files (Playback.file v) with
  | Some clip => clip
  | None => []
  end.

(** The frames a playback holds or has still to read are frames of its
    file, the one it is about to hand on is not empty, and so were all it
    showed. *)
Definition plays_its_clip (files : Files) (v : Playback.VideoPlayback)
    (r : Playback.Run) : Prop :=
  match Playback.pc r with
  | Playback.AtOpen | Playback.Returned => True
  | Playback.AtRead rest | Playback.AtSleep rest =>
      incl rest (clip_of files v)
  | Playback.AtSelect f rest | Playback.AtSend f rest =>
      Empty f = false /\ In f (clip_of files v) /\ incl rest (clip_of files v)
  end /\
  Forall (fun f => Empty f = false /\ In f (clip_of files v))
    (Playback.shown (Playback.trace r)).

(** A playback that has shown nothing, has reached no select and is reading
    a file none of whose remaining frames it would hand on. *)
Definition spinning (r : Playback.Run) : Prop :=
  (Playback.pc r = Playback.AtOpen \/
   exists rest, Playback.pc r = Playback.AtRead rest /\
                Playback.playable rest = []) /\
  Playback.selects r = 0%nat /\
  Playback.shown (Playback.trace r) = [].

(** A video writer that cannot be opened. *)
Definition broken_writer : Buffer.VideoWriter :=
  {| Buffer.open_err := fun _ => Some (ExternalErr "could not open the writer");
     Buffer.write_err := fun _ _ => None |}.

(** The capture loop is inside [playback.Stop()], sending on the stop
    channel of playback [p], and that playback has already returned. *)
Definition blocked_in_Stop (p : nat) (s : Capture.System) : Prop :=
  Capture.loop s = Capture.LStopPlayback p /\
  exists pv, Capture.playbacks s !! p = Some (pv, Playback.Returned).

(** The clip of every playback is on disk, and a playback that has returned
    received a stop from the loop. *)
Definition ends_by_Stop (s : Capture.System) : Prop :=
  forall p pv pc,
    Capture.playbacks s !! p = Some (pv, pc) ->
    (exists clip, Capture.files s (Playback.file pv) = Some clip) /\
    (pc = Playback.Returned -> In (Capture.EvStopped p) (Capture.log s)).

(** The number a string of decimal digits denotes, for reading a time stamp
    back. *)
Definition digit_value (c : ascii) : Z := Z.of_nat (nat_of_ascii c) - 48.

Fixpoint number (acc : Z) (s : string) : Z :=
  match s with
  | EmptyString => acc
  | String c s' => number (10 * acc + digit_value c) s'
  end.

(** ** The first revision of [StartDetection] ([audio.go])

    The detection channel carries a [time.Time]; every tick logs the sound
    level and there is no re-trigger interval. *)

Module FirstAudio.

Import GoTime.

Definition DefaultClubStrikeDecibelThreshold : float := 75%float.

Inductive Event : Type :=
| EvPrintf (format : string) (args : list Arg)
| EvDetection (t : Time).

Section Detection.

(** [math.Log10]; the result of the [k]-th call of [time.Now()]; the
    threshold. *)
Variable Log10 : float -> float.
Variable clock : nat -> Time.
Variable decibleThreshold : float.

(** One iteration of [for range detectTicker]: [nowCalls] counts the calls
    of [time.Now()] so far, [bite] is the rolling window the tick finds. *)
Definition tick (nowCalls : nat) (bite : list float) : nat * list Event :=
  let decibels := Audio.calculateDecibels Log10 bite in
  let logged := [EvPrintf "Sound level: %f dB\n" [AFloat decibels]] in
  if PrimFloat.ltb decibleThreshold decibels
  then (S nowCalls, logged ++ [EvDetection (clock nowCalls)])
  else (nowCalls, logged).

(** The loop over the ticks that arrive: what it did, in order. *)
Fixpoint run (nowCalls : nat) (bites : list (list float)) : list Event :=
  match bites with
  | [] => []
  | bite :: rest =>
      let r := tick nowCalls bite in snd r ++ run (fst r) rest
  end.

End Detection.

(** The time stamps sent on the channel. *)
Definition detections (evs : list Event) : list Time :=
  flat_map (fun e => match e with EvDetection t => [t] | _ => [] end) evs.

End FirstAudio.

(** The windows of a run that are above the threshold. *)
Definition above (Log10 : float -> float) (thr : float)
    (bites : list (list float)) : list (list float) :=
  List.filter (fun bite => PrimFloat.ltb thr (Audio.calculateDecibels Log10 bite))
    bites.

(** The buffer [NewVideoFrameBuffer(2)] returns, for the examples. *)
Definition fresh_buffer : Buffer.VideoFrameBuffer :=
  {| Buffer.frames := [MatZero; MatZero]; Buffer.idx := 0 |}.

(** While the buffer is not full the capture stream has started no playback
    and has left the clip files as it found them. *)
Definition idle_until_full (files0 : Files) (s : Capture.System) : Prop :=
  Buffer.Full (Capture.frameBuffer s) = false ->
  Capture.playbacks s = [] /\ Capture.playback s = None /\
  Capture.files s = files0.
(** * Properties *)

(** ** List facts used below *)

Lemma lastn_all {A : Type} (n : nat) (l : list A) :
  (length l <= n)%nat -> lastn n l = l.
Proof.
  intros H. unfold lastn.
  replace (length l - n)%nat with 0%nat by lia. reflexivity.
Qed.

Lemma lastn_length {A : Type} (n : nat) (l : list A) :
  length (lastn n l) = Nat.min (length l) n.
Proof. unfold lastn. rewrite length_drop. lia. Qed.

Lemma lastn_snoc {A : Type} (n : nat) (l : list A) (x old : A) (rest : list A) :
  (n <= length l)%nat -> lastn n l = old :: rest ->
  lastn n (l ++ [x]) = rest ++ [x].
Proof.
  unfold lastn. intros Hn Hl.
  assert (Hpos : (1 <= n)%nat).
  { apply (f_equal length) in Hl. rewrite length_drop in Hl. simpl in Hl. lia. }
  rewrite length_app. simpl.
  replace (length l + 1 - n)%nat with (S (length l - n)) by lia.
  rewrite drop_app_le by lia.
  change (S (length l - n)) with (1 + (length l - n))%nat.
  rewrite Nat.add_comm, <- drop_drop, Hl. reflexivity.
Qed.

(** ** The ring frame buffer *)

Lemma NewVideoFrameBuffer_holds (N : Z) :
  0 <= N ->
  exists v0, Buffer.NewVideoFrameBuffer N = Some v0 /\
             Buffer.holds (Z.to_nat N) [] v0.
Proof.
  intros HN. unfold Buffer.NewVideoFrameBuffer.
  destruct (Z.ltb_spec N 0) as [Hlt | _]; [lia |].
  eexists. split; [reflexivity |]. unfold Buffer.holds. simpl.
  rewrite Nat.sub_0_r. split; reflexivity.
Qed.

Lemma holds_len (n : nat) (hist : list Mat) (v : Buffer.VideoFrameBuffer) :
  Buffer.holds n hist v -> len (Buffer.frames v) = Z.of_nat n.
Proof.
  intros [Hf _]. unfold len. rewrite Hf, length_app, lastn_length, length_replicate.
  lia.
Qed.

(** One [Append] on a buffer of [n >= 1] slots: it never panics, it keeps
    the shape, and it closes a frame exactly when the buffer was full. *)
Lemma Append_holds (n : nat) (hist : list Mat) (v : Buffer.VideoFrameBuffer)
    (f : Mat) :
  (0 < n)%nat -> Buffer.holds n hist v ->
  exists v' e, Buffer.Append v f = Some (v', e) /\
               Buffer.holds n (hist ++ [f]) v' /\
               e = (if (length hist <? n)%nat then []
                    else map Buffer.EvClose (take 1 (lastn n hist))).
Proof.
  intros Hn Hv. pose proof (holds_len _ _ _ Hv) as Hlen.
  destruct Hv as [Hf Hi]. unfold Buffer.Append. rewrite Hlen, Hi.
  destruct (Nat.ltb_spec (length hist) n) as [Hlt | Hge].
  - rewrite Nat.min_l by lia.
    destruct (Z.ltb_spec (Z.of_nat (length hist)) (Z.of_nat n)); [| lia].
    destruct (Z.ltb_spec (Z.of_nat (length hist)) 0); [lia |].
    eexists _, _. split; [reflexivity |]. split; [| reflexivity].
    unfold Buffer.holds. simpl. rewrite Nat2Z.id, Hf, length_app. simpl.
    rewrite !lastn_all by (rewrite ?length_app; simpl; lia).
    split; [| lia].
    replace (n - length hist)%nat with (S (n - (length hist + 1))) by lia.
    simpl. rewrite insert_app_r_alt by lia.
    rewrite Nat.sub_diag. simpl. rewrite <- app_assoc. reflexivity.
  - rewrite Nat.min_r by lia.
    destruct (Z.ltb_spec (Z.of_nat n) (Z.of_nat n)); [lia |].
    replace (n - length hist)%nat with 0%nat in Hf by lia.
    simpl in Hf. rewrite app_nil_r in Hf.
    destruct (lastn n hist) as [| old rest] eqn:Hl.
    { apply (f_equal length) in Hl. rewrite lastn_length in Hl. simpl in Hl. lia. }
    rewrite Hf. eexists _, _. split; [reflexivity |]. split; [| reflexivity].
    unfold Buffer.holds. simpl. rewrite length_app. simpl.
    rewrite (lastn_snoc n hist f old rest) by (try lia; exact Hl).
    replace (n - (length hist + 1))%nat with 0%nat by lia.
    simpl. rewrite app_nil_r. split; [reflexivity | lia].
Qed.

(** Any run of appends on such a buffer completes and keeps the shape. *)
Lemma appends_holds (n : nat) (fs hist : list Mat) (v : Buffer.VideoFrameBuffer) :
  (0 < n)%nat -> Buffer.holds n hist v ->
  exists v' e, Buffer.appends v fs = Some (v', e) /\
               Buffer.holds n (hist ++ fs) v'.
Proof.
  intros Hn. revert hist v.
  induction fs as [| f fs IH]; intros hist v Hv; simpl.
  - eexists _, _. split; [reflexivity |]. rewrite app_nil_r. exact Hv.
  - destruct (Append_holds n hist v f Hn Hv) as (v1 & e1 & Ha & Hv1 & _).
    rewrite Ha. destruct (IH _ _ Hv1) as (v2 & e2 & Hb & Hv2).
    rewrite Hb. eexists _, _. split; [reflexivity |].
    rewrite <- app_assoc in Hv2. exact Hv2.
Qed.

Lemma write_frames_ok (w : Buffer.VideoWriter) (fs : list Mat) (k : nat) :
  Buffer.writer_ok w ->
  Buffer.write_frames w k fs = (None, map (fun m => Buffer.EvWrite m true) fs).
Proof.
  intros [_ Hw]. revert k.
  induction fs as [| f fs IH]; intros k; simpl; [reflexivity |].
  rewrite Hw, IH. reflexivity.
Qed.

Lemma written_writes (fs : list Mat) :
  Buffer.written (map (fun m => Buffer.EvWrite m true) fs) = fs.
Proof.
  induction fs as [| f fs IH]; [reflexivity |].
  unfold Buffer.written in *. simpl. rewrite IH. reflexivity.
Qed.

(** [Save] on a full buffer, with a writer that does not fail: it returns
    [nil] and the writer received the slots in order. *)
Lemma Save_full (w : Buffer.VideoWriter) (v : Buffer.VideoFrameBuffer)
    (file : string) (width height : Z) (fps : float) :
  Buffer.writer_ok w -> Buffer.Full v = true ->
  exists evs, Buffer.Save w v file width height fps = (None, evs) /\
              Buffer.written evs = Buffer.frames v.
Proof.
  intros Hw Hfull. unfold Buffer.Save. rewrite Hfull. simpl.
  rewrite (proj1 Hw), (write_frames_ok w _ 0 Hw).
  eexists. split; [reflexivity |].
  unfold Buffer.written. simpl. rewrite flat_map_app. simpl.
  rewrite app_nil_r. apply written_writes.
Qed.

(** With no slot at all the first [Append] indexes [frames[0]] of an empty
    slice; this is why the statements below ask for a capacity of at least
    one frame. *)
Lemma Append_without_slots_panics (f : Mat) :
  exists v0, Buffer.NewVideoFrameBuffer 0 = Some v0 /\ Buffer.Append v0 f = None.
Proof. eexists. split; reflexivity. Qed.

(** The state reached from a fresh buffer of capacity [N >= 1]. *)
Lemma ring_buffer_shape (N : Z) (fs : list Mat) :
  0 < N ->
  exists v0 v evs,
    Buffer.NewVideoFrameBuffer N = Some v0 /\
    Buffer.appends v0 fs = Some (v, evs) /\
    len (Buffer.frames v) = N /\
    Buffer.idx v = Z.min (len fs) N.
Proof.
  intros HN.
  destruct (NewVideoFrameBuffer_holds N) as (v0 & Hnew & H0); [lia |].
  destruct (appends_holds (Z.to_nat N) fs [] v0) as (v & evs & Happ & Hv);
    [lia | exact H0 |].
  simpl in Hv. pose proof (holds_len _ _ _ Hv) as Hlen.
  rewrite Z2Nat.id in Hlen by lia. destruct Hv as [_ Hi].
  exists v0, v, evs. repeat split; try assumption. unfold len. lia.
Qed.

(** C1.  A buffer of capacity [N >= 1] accepts every sequence of appends
    and never holds more than [N] frames: the slot array keeps [N] slots,
    the fill count is [min (number of appends) N], and the filled slots are
    the last appended frames, oldest first.  While the fill count is below
    [N] the next append writes slot [idx] and increments [idx]; once it is
    [N] the next append closes slot 0 and puts the frame at the end.  After
    at least [N] appends the buffer is full and [Save], on a writer that
    does not fail, returns no error and writes exactly the last [N] appended
    frames in capture order. *)
Theorem ring_buffer_keeps_last_frames (N : Z) (fs : list Mat) :
  0 < N ->
  exists v0 v evs,
    Buffer.NewVideoFrameBuffer N = Some v0 /\
    Buffer.appends v0 fs = Some (v, evs) /\
    len (Buffer.frames v) = N /\
    Buffer.idx v = Z.min (len fs) N /\
    take (Z.to_nat (Buffer.idx v)) (Buffer.frames v) = lastn (Z.to_nat N) fs /\
    (forall f, Buffer.idx v < N ->
       Buffer.Append v f =
       Some ({| Buffer.frames := <[Z.to_nat (Buffer.idx v) := f]> (Buffer.frames v);
                Buffer.idx := Buffer.idx v + 1 |}, [])) /\
    (forall f, Buffer.idx v = N ->
       exists old rest,
         Buffer.frames v = old :: rest /\
         Buffer.Append v f =
         Some ({| Buffer.frames := rest ++ [f]; Buffer.idx := N |},
               [Buffer.EvClose old])) /\
    (N <= len fs ->
       Buffer.Full v = true /\
       forall w file width height fps,
         Buffer.writer_ok w ->
         exists saved,
           Buffer.Save w v file width height fps = (None, saved) /\
           Buffer.written saved = lastn (Z.to_nat N) fs /\
           len (Buffer.written saved) = N).
Proof.
  intros HN.
  destruct (NewVideoFrameBuffer_holds N) as (v0 & Hnew & H0); [lia |].
  destruct (appends_holds (Z.to_nat N) fs [] v0) as (v & evs & Happ & Hv);
    [lia | exact H0 |].
  simpl in Hv. pose proof (holds_len _ _ _ Hv) as Hlen.
  rewrite Z2Nat.id in Hlen by lia.
  destruct Hv as [Hf Hi].
  assert (Hidx : Buffer.idx v = Z.min (len fs) N) by (unfold len; lia).
  exists v0, v, evs. repeat split; try assumption.
  - rewrite Hf, Hi, Nat2Z.id.
    rewrite take_app_length'; [reflexivity |]. symmetry. apply lastn_length.
  - intros f Hlt. unfold Buffer.Append. rewrite Hlen.
    destruct (Z.ltb_spec (Buffer.idx v) N); [| lia].
    destruct (Z.ltb_spec (Buffer.idx v) 0); [unfold len in Hidx; lia |].
    reflexivity.
  - intros f Heq. unfold Buffer.Append. rewrite Hlen.
    destruct (Z.ltb_spec (Buffer.idx v) N); [lia |].
    destruct (Buffer.frames v) as [| old rest] eqn:Hfr.
    { unfold len in Hlen. simpl in Hlen. lia. }
    exists old, rest. rewrite Heq. split; reflexivity.
  - unfold Buffer.Full. rewrite Hlen. apply Z.eqb_eq. lia.
  - intros w file width height fps Hw.
    assert (Hfull : Buffer.Full v = true).
    { unfold Buffer.Full. rewrite Hlen. apply Z.eqb_eq. lia. }
    destruct (Save_full w v file width height fps Hw Hfull) as (saved & Hs & Hwr).
    assert (Hall : Buffer.frames v = lastn (Z.to_nat N) fs).
    { rewrite Hf. unfold len in H.
      replace (Z.to_nat N - length fs)%nat with 0%nat by lia.
      simpl. apply app_nil_r. }
    exists saved. rewrite Hwr. repeat split; [exact Hs | exact Hall | exact Hlen].
Qed.

Lemma ring_buffer_keeps_last_frames_witness :
  0 < 2 /\
  exists v0 v evs,
    Buffer.NewVideoFrameBuffer 2 = Some v0 /\
    Buffer.appends v0 [MatData 1 false; MatData 2 false; MatData 3 false]
      = Some (v, evs) /\
    len (Buffer.frames v) = 2 /\
    take (Z.to_nat (Buffer.idx v)) (Buffer.frames v)
      = [MatData 2 false; MatData 3 false].
Proof.
  split; [lia |].
  destruct (ring_buffer_keeps_last_frames 2
              [MatData 1 false; MatData 2 false; MatData 3 false])
    as (v0 & v & evs & H0 & H1 & H2 & _ & H4 & _); [lia |].
  exists v0, v, evs. repeat split; assumption.
Defined.

Lemma Save_when_not_full (w : Buffer.VideoWriter)
    (v : Buffer.VideoFrameBuffer) (file : string) (width height : Z)
    (fps : float) :
  Buffer.Full v = false ->
  Buffer.Save w v file width height fps =
    (Some (Errorf "video frame buffer is not full (%d/%d)"
             [Buffer.idx v; len (Buffer.frames v)]), []).
Proof. intros Hfull. unfold Buffer.Save. rewrite Hfull. reflexivity. Qed.

(** C2.  On a buffer whose fill count is strictly below its capacity,
    [Save] returns the not-full error and does nothing else: its trace is
    empty, so no video writer is opened, no frame is written and nothing is
    printed. *)
Theorem Save_not_full_writes_nothing (w : Buffer.VideoWriter)
    (v : Buffer.VideoFrameBuffer) (file : string) (width height : Z)
    (fps : float) :
  Buffer.idx v < len (Buffer.frames v) ->
  Buffer.Full v = false /\
  Buffer.Save w v file width height fps =
    (Some (Errorf "video frame buffer is not full (%d/%d)"
             [Buffer.idx v; len (Buffer.frames v)]), []) /\
  Buffer.written (snd (Buffer.Save w v file width height fps)) = [] /\
  forallb (fun e => negb (Buffer.touches_writer e))
    (snd (Buffer.Save w v file width height fps)) = true.
Proof.
  intros Hlt.
  assert (Hfull : Buffer.Full v = false).
  { unfold Buffer.Full. apply Z.eqb_neq. lia. }
  rewrite (Save_when_not_full w v file width height fps Hfull).
  repeat split; try reflexivity. exact Hfull.
Qed.

Lemma Save_not_full_writes_nothing_witness :
  1 < len [MatData 1 false; MatZero] /\
  Buffer.Save {| Buffer.open_err := fun _ => None;
                 Buffer.write_err := fun _ _ => None |}
    {| Buffer.frames := [MatData 1 false; MatZero]; Buffer.idx := 1 |}
    "videos/clip.avi" 1280 720 120%float =
  (Some (Errorf "video frame buffer is not full (%d/%d)" [1; 2]), []).
Proof.
  split; [unfold len; simpl; lia |].
  apply (Save_not_full_writes_nothing
           {| Buffer.open_err := fun _ => None;
              Buffer.write_err := fun _ _ => None |}
           {| Buffer.frames := [MatData 1 false; MatZero]; Buffer.idx := 1 |}
           "videos/clip.avi" 1280 720 120%float).
  unfold len. simpl. lia.
Defined.

(** The same on a buffer built by the code: fewer appends than slots. *)
Lemma Save_after_too_few_appends (w : Buffer.VideoWriter) (N : Z)
    (fs : list Mat) (file : string) (width height : Z) (fps : float) :
  len fs < N ->
  exists v0 v evs,
    Buffer.NewVideoFrameBuffer N = Some v0 /\
    Buffer.appends v0 fs = Some (v, evs) /\
    Buffer.Save w v file width height fps =
      (Some (Errorf "video frame buffer is not full (%d/%d)" [len fs; N]), []).
Proof.
  intros Hlt. assert (HN : 0 < N) by (unfold len in Hlt; lia).
  destruct (ring_buffer_shape N fs HN) as (v0 & v & evs & Hnew & Happ & Hlen & Hidx).
  exists v0, v, evs. repeat split; try assumption.
  rewrite Save_when_not_full.
  - rewrite Hlen, Hidx. repeat f_equal. lia.
  - unfold Buffer.Full. apply Z.eqb_neq. lia.
Qed.

Lemma Append_step (v v' : Buffer.VideoFrameBuffer) (f : Mat)
    (e : list Buffer.Event) :
  fill_count_in_range v -> Buffer.Append v f = Some (v', e) ->
  len (Buffer.frames v') = len (Buffer.frames v) /\
  Buffer.idx v <= Buffer.idx v' /\
  fill_count_in_range v' /\
  (Buffer.Full v = true -> Buffer.Full v' = true).
Proof.
  unfold fill_count_in_range, Buffer.Append, Buffer.Full, len.
  intros Hr Ha.
  destruct (Z.ltb_spec (Buffer.idx v) (Z.of_nat (length (Buffer.frames v)))).
  - destruct (Z.ltb_spec (Buffer.idx v) 0); [discriminate |].
    injection Ha as <- <-. simpl. rewrite length_insert.
    repeat split; lia.
  - destruct (Buffer.frames v) as [| old rest] eqn:Hfr; [discriminate |].
    injection Ha as <- <-. simpl in *. rewrite length_app. simpl.
    repeat split; try lia. intros _. apply Z.eqb_eq. lia.
Qed.

Lemma appends_steps (fs : list Mat) (v v' : Buffer.VideoFrameBuffer)
    (e : list Buffer.Event) :
  fill_count_in_range v -> Buffer.appends v fs = Some (v', e) ->
  len (Buffer.frames v') = len (Buffer.frames v) /\
  Buffer.idx v <= Buffer.idx v' /\
  fill_count_in_range v' /\
  (Buffer.Full v = true -> Buffer.Full v' = true).
Proof.
  revert v e. induction fs as [| f fs IH]; intros v e Hr Ha; simpl in Ha.
  - injection Ha as <- <-. split; [reflexivity |]. split; [lia |]. split; auto.
  - destruct (Buffer.Append v f) as [[v1 e1] |] eqn:H1; [| discriminate].
    destruct (Buffer.appends v1 fs) as [[v2 e2] |] eqn:H2; [| discriminate].
    injection Ha as <- <-.
    destruct (Append_step v v1 f e1 Hr H1) as (Ha1 & Ha2 & Ha3 & Ha4).
    destruct (IH v1 e2 Ha3 H2) as (Hb1 & Hb2 & Hb3 & Hb4).
    split; [lia |]. split; [lia |]. split; [exact Hb3 | auto].
Qed.

(** C9.  The slot array of a buffer made by [NewVideoFrameBuffer N] has [N]
    slots and keeps them through every append; the fill count starts at 0,
    never decreases and never exceeds [N]; a full buffer is still full
    after any further appends.  With at least one slot no append panics,
    so these states are all reached. *)
Theorem slots_fixed_fill_count_monotone (N : Z) (v0 : Buffer.VideoFrameBuffer) :
  Buffer.NewVideoFrameBuffer N = Some v0 ->
  len (Buffer.frames v0) = N /\ Buffer.idx v0 = 0 /\
  forall fs v evs,
    Buffer.appends v0 fs = Some (v, evs) ->
    len (Buffer.frames v) = N /\ 0 <= Buffer.idx v <= N /\
    (forall f v' e,
       Buffer.Append v f = Some (v', e) ->
       len (Buffer.frames v') = N /\
       Buffer.idx v <= Buffer.idx v' <= N /\
       (Buffer.Full v = true -> Buffer.Full v' = true)) /\
    (forall gs v' e,
       Buffer.appends v gs = Some (v', e) ->
       len (Buffer.frames v') = N /\
       Buffer.idx v <= Buffer.idx v' <= N /\
       (Buffer.Full v = true -> Buffer.Full v' = true)) /\
    (0 < N -> forall gs, exists v' e, Buffer.appends v gs = Some (v', e)).
Proof.
  intros Hnew. unfold Buffer.NewVideoFrameBuffer in Hnew.
  destruct (Z.ltb_spec N 0) as [| HN]; [discriminate |].
  injection Hnew as <-. simpl.
  set (v0 := {| Buffer.frames := replicate (Z.to_nat N) MatZero; Buffer.idx := 0 |}).
  assert (Hlen0 : len (Buffer.frames v0) = N).
  { unfold len. simpl. rewrite length_replicate. lia. }
  assert (Hr0 : fill_count_in_range v0).
  { unfold fill_count_in_range. rewrite Hlen0. simpl. lia. }
  split; [exact Hlen0 |]. split; [reflexivity |].
  intros fs v evs Happ.
  destruct (appends_steps fs v0 v evs Hr0 Happ) as (Hl & Hi & Hr & _).
  pose proof Hr as Hr'. unfold fill_count_in_range in Hr'.
  rewrite Hl, Hlen0 in Hr'.
  split; [congruence |]. split; [exact Hr' |]. split; [| split].
  - intros f v' e Ha.
    destruct (Append_step v v' f e Hr Ha) as (Hl' & Hi' & Hr'' & Hfull).
    unfold fill_count_in_range in Hr''. rewrite Hl', Hl, Hlen0 in Hr''.
    split; [congruence |]. split; [lia | exact Hfull].
  - intros gs v' e Ha.
    destruct (appends_steps gs v v' e Hr Ha) as (Hl' & Hi' & Hr'' & Hfull).
    unfold fill_count_in_range in Hr''. rewrite Hl', Hl, Hlen0 in Hr''.
    split; [congruence |]. split; [lia | exact Hfull].
  - intros Hpos gs.
    destruct (NewVideoFrameBuffer_holds N HN) as (w0 & Hw0 & Hh0).
    unfold Buffer.NewVideoFrameBuffer in Hw0.
    destruct (Z.ltb_spec N 0); [lia |]. injection Hw0 as <-. fold v0 in Hh0.
    destruct (appends_holds (Z.to_nat N) fs [] v0) as (v1 & e1 & Happ1 & Hh1);
      [lia | exact Hh0 |].
    rewrite Happ in Happ1. injection Happ1 as <- <-.
    destruct (appends_holds (Z.to_nat N) gs ([] ++ fs) v) as (v2 & e2 & Happ2 & _);
      [lia | exact Hh1 |].
    exists v2, e2. exact Happ2.
Qed.

Lemma slots_fixed_fill_count_monotone_witness :
  Buffer.NewVideoFrameBuffer 2 =
    Some {| Buffer.frames := [MatZero; MatZero]; Buffer.idx := 0 |} /\
  forall fs v evs,
    Buffer.appends {| Buffer.frames := [MatZero; MatZero]; Buffer.idx := 0 |} fs
      = Some (v, evs) ->
    len (Buffer.frames v) = 2 /\ 0 <= Buffer.idx v <= 2.
Proof.
  split; [reflexivity |].
  intros fs v evs Happ.
  destruct (slots_fixed_fill_count_monotone 2
              {| Buffer.frames := [MatZero; MatZero]; Buffer.idx := 0 |}
              eq_refl) as (_ & _ & H).
  destruct (H fs v evs Happ) as (H1 & H2 & _). split; assumption.
Defined.

(** ** binary64 comparisons *)

Lemma SFcompare_Eq_sym (x y : spec_float) :
  SFcompare x y = Some Eq -> SFcompare y x = Some Eq.
Proof.
  destruct x as [sx | sx | | sx mx ex], y as [sy | sy | | sy my ey]; simpl;
    try congruence;
    try (destruct sx, sy; congruence);
    try (destruct sx; congruence); try (destruct sy; congruence).
  destruct sx, sy; try congruence;
    (destruct (Z.compare_spec ex ey); try congruence; subst;
     rewrite Z.compare_refl; intros H; injection H as H;
     destruct (PosDef.Pos.compare_cont Eq mx my) eqn:E; try discriminate;
     change (Pos.compare mx my = Eq) in E; apply Pos.compare_eq in E; subst;
     rewrite Pos.compare_cont_refl; reflexivity).
Qed.

(** [x == y] excludes [y < x]. *)
Lemma ltb_false_of_eqb (x y : float) :
  PrimFloat.eqb x y = true -> PrimFloat.ltb y x = false.
Proof.
  rewrite FloatAxioms.eqb_spec, FloatAxioms.ltb_spec. unfold SFeqb, SFltb.
  destruct (SFcompare (Prim2SF x) (Prim2SF y)) as [[] |] eqn:E; try discriminate.
  intros _. rewrite (SFcompare_Eq_sym _ _ E). reflexivity.
Qed.

Lemma ltb_irrefl (x : float) : PrimFloat.ltb x x = false.
Proof.
  rewrite FloatAxioms.ltb_spec. unfold SFltb.
  destruct (Prim2SF x) as [s | s | | s m e]; simpl; try reflexivity;
    destruct s; try reflexivity;
    rewrite Z.compare_refl, Pos.compare_cont_refl; reflexivity.
Qed.

(** Nothing is below NaN, and nothing is below -Inf. *)
Lemma ltb_nan_r (t : float) : PrimFloat.ltb t nan = false.
Proof.
  rewrite FloatAxioms.ltb_spec. change (Prim2SF nan) with S754_nan.
  unfold SFltb. destruct (Prim2SF t); reflexivity.
Qed.

Lemma ltb_neg_infinity_r (t : float) : PrimFloat.ltb t neg_infinity = false.
Proof.
  rewrite FloatAxioms.ltb_spec.
  change (Prim2SF neg_infinity) with (S754_infinity true).
  unfold SFltb.
  destruct (Prim2SF t) as [s | s | | s m e]; simpl; try reflexivity;
    destruct s; reflexivity.
Qed.

(** ** The detector *)

(** A tick whose loudness is not above the threshold does nothing but
    log. *)
Lemma tick_below (Log10 : float -> float) (clock : nat -> GoTime.Time)
    (thr : float) (d : GoTime.Duration) (s : Audio.Ticker) (i : Audio.Tick) :
  PrimFloat.ltb thr (Audio.calculateDecibels Log10 (Audio.bite i)) = false ->
  fst (Audio.tick Log10 clock thr d s i) = s /\
  Audio.detections (snd (Audio.tick Log10 clock thr d s i)) = [].
Proof.
  intros H. unfold Audio.tick. rewrite H. simpl.
  split; [reflexivity |]. destruct (Audio.sampled i); reflexivity.
Qed.

Lemma detections_logged_only (b : bool) (x : float) :
  Audio.detections
    (if b then [Audio.EvPrintf "Sound level: %f dB\n" [AFloat x]] else []) = [].
Proof. destruct b; reflexivity. Qed.

Lemma detections_app (l1 l2 : list Audio.Event) :
  Audio.detections (l1 ++ l2) = Audio.detections l1 ++ Audio.detections l2.
Proof. unfold Audio.detections. apply flat_map_app. Qed.

(** What a tick sends, and how it leaves the variables. *)
Lemma tick_detections (Log10 : float -> float) (clock : nat -> GoTime.Time)
    (thr : float) (d : GoTime.Duration) (s : Audio.Ticker) (i : Audio.Tick) :
  let decibels := Audio.calculateDecibels Log10 (Audio.bite i) in
  let fires :=
    PrimFloat.ltb thr decibels &&
    (Audio.lastDetection s <?
       clock (Audio.nowCalls s) + GoTime.wrap64 (- d)) in
  Audio.detections (snd (Audio.tick Log10 clock thr d s i)) =
    (if fires
     then [{| Audio.Decibel := decibels;
              Audio.DetectionTime := clock (S (S (Audio.nowCalls s))) |}]
     else []) /\
  Audio.lastDetection (fst (Audio.tick Log10 clock thr d s i)) =
    (if fires then clock (S (Audio.nowCalls s)) else Audio.lastDetection s) /\
  (Audio.nowCalls s <= Audio.nowCalls (fst (Audio.tick Log10 clock thr d s i)))%nat /\
  (if fires
   then Audio.nowCalls (fst (Audio.tick Log10 clock thr d s i))
        = S (S (S (Audio.nowCalls s)))
   else True).
Proof.
  intros decibels fires. subst fires. unfold Audio.tick. fold decibels.
  unfold GoTime.After, GoTime.Add.
  destruct (PrimFloat.ltb thr decibels); simpl.
  - destruct (Audio.lastDetection s <? clock (Audio.nowCalls s) + GoTime.wrap64 (- d));
      simpl; rewrite ?detections_app, ?detections_logged_only; simpl;
      repeat split; lia.
  - rewrite detections_logged_only. repeat split; lia.
Qed.

Lemma wrap64_opp_le (d : Z) :
  GoTime.is_Duration d -> GoTime.wrap64 (- d) <= - d.
Proof.
  unfold GoTime.is_Duration, GoTime.minDuration, GoTime.maxDuration, GoTime.wrap64.
  change (2 ^ 63) with 9223372036854775808.
  change (2 ^ 64) with 18446744073709551616.
  intros H. Z.div_mod_to_equations. lia.
Qed.

Lemma wrap64_opp_exact (d : Z) :
  GoTime.is_Duration d -> d <> GoTime.minDuration -> GoTime.wrap64 (- d) = - d.
Proof.
  unfold GoTime.is_Duration, GoTime.minDuration, GoTime.maxDuration, GoTime.wrap64.
  change (2 ^ 63) with 9223372036854775808.
  change (2 ^ 64) with 18446744073709551616.
  intros H Hne. Z.div_mod_to_equations. lia.
Qed.

(** A tick that sends a Detection: its condition held, and the variables are
    as the code leaves them. *)
Lemma tick_sends (Log10 : float -> float) (clock : nat -> GoTime.Time)
    (thr : float) (d : GoTime.Duration) (s : Audio.Ticker) (i : Audio.Tick)
    (det : Audio.Detection) :
  In det (Audio.detections (snd (Audio.tick Log10 clock thr d s i))) ->
  PrimFloat.ltb thr (Audio.calculateDecibels Log10 (Audio.bite i)) = true /\
  Audio.lastDetection s < clock (Audio.nowCalls s) + GoTime.wrap64 (- d) /\
  det = {| Audio.Decibel := Audio.calculateDecibels Log10 (Audio.bite i);
           Audio.DetectionTime := clock (S (S (Audio.nowCalls s))) |} /\
  fst (Audio.tick Log10 clock thr d s i) =
    {| Audio.lastDetection := clock (S (Audio.nowCalls s));
       Audio.nowCalls := S (S (S (Audio.nowCalls s))) |}.
Proof.
  intros Hin.
  destruct (tick_detections Log10 clock thr d s i) as (Hd & _).
  rewrite Hd in Hin. clear Hd. unfold Audio.tick, GoTime.After, GoTime.Add.
  destruct (PrimFloat.ltb thr _); simpl in Hin; [| contradiction].
  destruct (Z.ltb_spec (Audio.lastDetection s)
              (clock (Audio.nowCalls s) + GoTime.wrap64 (- d))) as [Hlt | Hge];
    simpl in Hin; [| contradiction].
  destruct Hin as [<- | []]. repeat split; try assumption.
Qed.

Lemma tick_settled (Log10 : float -> float) (clock : nat -> GoTime.Time)
    (thr : float) (d : GoTime.Duration) (s : Audio.Ticker) (i : Audio.Tick) :
  monotone clock -> settled clock s ->
  settled clock (fst (Audio.tick Log10 clock thr d s i)) /\
  Audio.lastDetection s <=
    Audio.lastDetection (fst (Audio.tick Log10 clock thr d s i)).
Proof.
  unfold settled. intros Hm Hs.
  destruct (tick_detections Log10 clock thr d s i) as (_ & Hl & Hc & Hf).
  rewrite Hl.
  destruct (PrimFloat.ltb thr _ && _); simpl in *.
  - rewrite Hf. pose proof (Hm (Audio.nowCalls s) (S (Audio.nowCalls s))).
    pose proof (Hm (S (Audio.nowCalls s)) (S (S (S (Audio.nowCalls s))))).
    lia.
  - pose proof (Hm _ _ Hc). lia.
Qed.

(** From a settled state, every later Detection is more than the interval
    after [lastDetection]. *)
Lemma run_after_settled (Log10 : float -> float) (clock : nat -> GoTime.Time)
    (thr : float) (d : GoTime.Duration) (ticks : list Audio.Tick) :
  monotone clock -> GoTime.is_Duration d ->
  forall (s : Audio.Ticker) (j : nat) (sj : Audio.Ticker)
         (evj : list Audio.Event) (det : Audio.Detection),
    settled clock s ->
    Audio.run Log10 clock thr d s ticks !! j = Some (sj, evj) ->
    In det (Audio.detections evj) ->
    Audio.lastDetection s + d < Audio.lastDetection sj /\
    Audio.lastDetection s + d < Audio.DetectionTime det.
Proof.
  intros Hm Hd. induction ticks as [| i rest IH]; intros s j sj evj det Hs Hj Hin.
  - destruct j; discriminate.
  - destruct j as [| j]; simpl in Hj.
    + injection Hj as Hj. 
      assert (Hsj : sj = fst (Audio.tick Log10 clock thr d s i)) by (rewrite Hj; reflexivity).
      assert (Hev : evj = snd (Audio.tick Log10 clock thr d s i)) by (rewrite Hj; reflexivity).
      subst evj. destruct (tick_sends _ _ _ _ _ _ _ Hin) as (_ & Hcond & -> & Hst).
      rewrite Hsj, Hst. simpl.
      pose proof (wrap64_opp_le d Hd).
      pose proof (Hm (Audio.nowCalls s) (S (Audio.nowCalls s))).
      pose proof (Hm (Audio.nowCalls s) (S (S (Audio.nowCalls s)))).
      lia.
    + destruct (tick_settled Log10 clock thr d s i Hm Hs) as (Hs1 & Hle).
      destruct (IH _ _ _ _ _ Hs1 Hj Hin). lia.
Qed.

(** Two ticks of one run that both send a Detection. *)
Lemma run_two_detections (Log10 : float -> float) (clock : nat -> GoTime.Time)
    (thr : float) (d : GoTime.Duration) (ticks : list Audio.Tick) :
  monotone clock -> GoTime.is_Duration d ->
  forall (s0 : Audio.Ticker) (i j : nat) (si sj : Audio.Ticker)
         (evi evj : list Audio.Event) (di dj : Audio.Detection),
    (i < j)%nat ->
    Audio.run Log10 clock thr d s0 ticks !! i = Some (si, evi) ->
    In di (Audio.detections evi) ->
    Audio.run Log10 clock thr d s0 ticks !! j = Some (sj, evj) ->
    In dj (Audio.detections evj) ->
    Audio.lastDetection si + d < Audio.lastDetection sj /\
    Audio.lastDetection si + d < Audio.DetectionTime dj /\
    Audio.lastDetection si <= Audio.DetectionTime di.
Proof.
  intros Hm Hd. induction ticks as [| t rest IH];
    intros s0 i j si sj evi evj di dj Hij Hi Hdi Hj Hdj.
  - destruct i; discriminate.
  - destruct j as [| j]; [lia |]. destruct i as [| i]; simpl in Hi, Hj.
    + injection Hi as Hi.
      assert (Hsi : si = fst (Audio.tick Log10 clock thr d s0 t)) by (rewrite Hi; reflexivity).
      assert (Hev : evi = snd (Audio.tick Log10 clock thr d s0 t)) by (rewrite Hi; reflexivity).
      subst evi. destruct (tick_sends _ _ _ _ _ _ _ Hdi) as (_ & _ & -> & Hst).
      rewrite <- Hsi in Hst, Hj.
      assert (Hs : settled clock si).
      { unfold settled. rewrite Hst. simpl. apply Hm. lia. }
      destruct (run_after_settled Log10 clock thr d rest Hm Hd si j sj evj dj Hs Hj Hdj)
        as (H1 & H2).
      split; [exact H1 |]. split; [exact H2 |].
      rewrite Hst. simpl. apply Hm. lia.
    + apply (IH (fst (Audio.tick Log10 clock thr d s0 t)) i j si sj evi evj di dj);
        try assumption. lia.
Qed.

(** After a tick that sent a Detection, [lastDetection] is a clock
    reading. *)
Lemma run_detection_stamp (Log10 : float -> float) (clock : nat -> GoTime.Time)
    (thr : float) (d : GoTime.Duration) (ticks : list Audio.Tick) :
  forall (s0 : Audio.Ticker) (k : nat) (sk : Audio.Ticker)
         (evk : list Audio.Event) (dk : Audio.Detection),
    Audio.run Log10 clock thr d s0 ticks !! k = Some (sk, evk) ->
    In dk (Audio.detections evk) ->
    exists c, Audio.lastDetection sk = clock c.
Proof.
  induction ticks as [| t rest IH]; intros s0 k sk evk dk Hk Hin.
  - destruct k; discriminate.
  - destruct k as [| k]; simpl in Hk.
    + injection Hk as Hk.
      assert (Hev : evk = snd (Audio.tick Log10 clock thr d s0 t)) by (rewrite Hk; reflexivity).
      assert (Hsk : sk = fst (Audio.tick Log10 clock thr d s0 t)) by (rewrite Hk; reflexivity).
      subst evk. destruct (tick_sends _ _ _ _ _ _ _ Hin) as (_ & _ & _ & Hst).
      rewrite Hsk, Hst. simpl. eexists. reflexivity.
    + exact (IH _ _ _ _ _ Hk Hin).
Qed.




(** The burst of the specification: three loud ticks 100 ms apart, with a
    threshold of 75 dB and the default interval, send one Detection. *)
Example burst_sends_one_detection :
  map (fun r => length (Audio.detections (snd r)))
    (Audio.run (Audio.Log10_of (fun _ => 4%float)) tenth_of_second_clock
       75%float Audio.DefaultMinDetectionInterval Audio.start
       [loud; loud; loud]) = [1%nat; 0%nat; 0%nat].
Proof. vm_compute. reflexivity. Qed.

(** Ticks further apart than the interval each send one. *)
Example distant_ticks_send_each :
  map (fun r => length (Audio.detections (snd r)))
    (Audio.run (Audio.Log10_of (fun _ => 4%float))
       (fun k => 10000000000 + Z.of_nat k * (3 * GoTime.Second))
       75%float Audio.DefaultMinDetectionInterval Audio.start
       [loud; loud]) = [1%nat; 1%nat].
Proof. vm_compute. reflexivity. Qed.

(** ** Loudness of silent and empty windows *)

Lemma sum_of_squares_silent (n : nat) :
  fold_left (fun sum sample => PrimFloat.add sum (PrimFloat.mul sample sample))
    (replicate n 0%float) 0%float = 0%float.
Proof. induction n as [| n IH]; [reflexivity | exact IH]. Qed.

(** A window of zeros, of any length the detector keeps (1 to 4410
    samples), has RMS 0. *)
Lemma calculateRMS_silent (n : nat) :
  (1 <= n <= 4410)%nat -> Audio.calculateRMS (replicate n 0%float) = 0%float.
Proof.
  intros Hn. unfold Audio.calculateRMS, len.
  rewrite sum_of_squares_silent, length_replicate.
  assert (Hall : forallb
            (fun k => PrimFloat.Leibniz.eqb
               (PrimFloat.sqrt
                  (PrimFloat.div 0%float (Audio.float64_of_int (Z.of_nat k))))
               0%float)
            (seq 1 4410) = true) by (vm_compute; reflexivity).
  rewrite forallb_forall in Hall.
  apply FloatAxioms.Leibniz.eqb_spec, Hall, in_seq. lia.
Qed.

(** The rolling window never holds more than [maxSignalLength] samples. *)
Lemma intake_length (bite : list float) (buffer : list Z) :
  len (Audio.intake bite buffer) <= Audio.maxSignalLength.
Proof.
  unfold Audio.intake, len, Audio.maxSignalLength.
  destruct (Z.gtb_spec
              (Z.of_nat (length (bite ++ map Audio.float64_of_int buffer))) 4410).
  - rewrite length_drop. lia.
  - lia.
Qed.

Lemma tick_quiet (Log10 : float -> float) (clock : nat -> GoTime.Time)
    (thr : float) (d : GoTime.Duration) (s : Audio.Ticker) (t : Audio.Tick) :
  PrimFloat.ltb thr (Audio.calculateDecibels Log10 (Audio.bite t)) = false ->
  Audio.tick Log10 clock thr d s t =
    (s, if Audio.sampled t
        then [Audio.EvPrintf "Sound level: %f dB\n"
                [AFloat (Audio.calculateDecibels Log10 (Audio.bite t))]]
        else []).
Proof. intros H. unfold Audio.tick. rewrite H. reflexivity. Qed.

(** C5.  The trigger is a strict comparison.  A tick whose computed
    loudness equals the threshold (as the same value, or under float64
    [==]) sends no Detection and leaves [lastDetection] alone.  A window
    whose RMS is 0 has loudness -Inf, which is above no threshold, so such
    a tick sends no Detection either. *)
Theorem trigger_is_strictly_above_threshold (Log10 : float -> float)
    (clock : nat -> GoTime.Time) (thr : float) (d : GoTime.Duration)
    (s : Audio.Ticker) (t : Audio.Tick) :
  (Audio.calculateDecibels Log10 (Audio.bite t) = thr \/
   PrimFloat.eqb (Audio.calculateDecibels Log10 (Audio.bite t)) thr = true ->
   Audio.detections (snd (Audio.tick Log10 clock thr d s t)) = [] /\
   fst (Audio.tick Log10 clock thr d s t) = s) /\
  (PrimFloat.eqb (Audio.calculateRMS (Audio.bite t)) 0%float = true ->
   Audio.calculateDecibels Log10 (Audio.bite t) = neg_infinity /\
   PrimFloat.ltb thr (Audio.calculateDecibels Log10 (Audio.bite t)) = false /\
   Audio.detections (snd (Audio.tick Log10 clock thr d s t)) = [] /\
   fst (Audio.tick Log10 clock thr d s t) = s).
Proof.
  split.
  - intros Heq.
    assert (Hlt : PrimFloat.ltb thr
                    (Audio.calculateDecibels Log10 (Audio.bite t)) = false).
    { destruct Heq as [-> | Heq]; [apply ltb_irrefl |].
      apply ltb_false_of_eqb. exact Heq. }
    rewrite (tick_quiet Log10 clock thr d s t Hlt). simpl.
    split; [apply detections_logged_only | reflexivity].
  - intros Hrms.
    assert (Hdb : Audio.calculateDecibels Log10 (Audio.bite t) = neg_infinity).
    { unfold Audio.calculateDecibels. rewrite Hrms. reflexivity. }
    assert (Hlt : PrimFloat.ltb thr
                    (Audio.calculateDecibels Log10 (Audio.bite t)) = false).
    { rewrite Hdb. apply ltb_neg_infinity_r. }
    rewrite (tick_quiet Log10 clock thr d s t Hlt). simpl.
    repeat split; try assumption. apply detections_logged_only.
Qed.

Lemma trigger_is_strictly_above_threshold_witness :
  PrimFloat.eqb
    (Audio.calculateDecibels (Audio.Log10_of (fun _ => 4%float))
       (Audio.bite loud)) 80%float = true /\
  Audio.detections
    (snd (Audio.tick (Audio.Log10_of (fun _ => 4%float)) tenth_of_second_clock
            80%float Audio.DefaultMinDetectionInterval Audio.start loud)) = [] /\
  PrimFloat.eqb
    (Audio.calculateRMS (replicate 4410 0%float)) 0%float = true /\
  Audio.calculateDecibels (Audio.Log10_of (fun _ => 4%float))
    (replicate 4410 0%float) = neg_infinity.
Proof.
  assert (H1 : PrimFloat.eqb
                 (Audio.calculateDecibels (Audio.Log10_of (fun _ => 4%float))
                    (Audio.bite loud)) 80%float = true)
    by (vm_compute; reflexivity).
  assert (H2 : PrimFloat.eqb
                 (Audio.calculateRMS (replicate 4410 0%float)) 0%float = true)
    by (vm_compute; reflexivity).
  split; [exact H1 |]. split; [| split; [exact H2 |]].
  - destruct (trigger_is_strictly_above_threshold
                (Audio.Log10_of (fun _ => 4%float)) tenth_of_second_clock
                80%float Audio.DefaultMinDetectionInterval Audio.start loud)
      as (Hboundary & _).
    destruct (Hboundary (or_intror H1)) as (Hnone & _). exact Hnone.
  - destruct (trigger_is_strictly_above_threshold
                (Audio.Log10_of (fun _ => 4%float)) tenth_of_second_clock
                80%float Audio.DefaultMinDetectionInterval Audio.start
                {| Audio.bite := replicate 4410 0%float; Audio.sampled := false |})
      as (_ & Hsilent).
    destruct (Hsilent H2) as (Hinf & _). exact Hinf.
Defined.

(** C10.  Before the first block of samples the window is empty:
    [calculateRMS] divides 0 by 0 and returns NaN, which is not [== 0], so
    [calculateDecibels] takes the logarithm branch and (as [math.Log10]
    returns NaN on NaN) returns NaN, not -Inf.  NaN is above no threshold,
    so the tick sends no Detection. *)
Theorem empty_window_is_NaN (Log10 : float -> float)
    (clock : nat -> GoTime.Time) (thr : float) (d : GoTime.Duration)
    (s : Audio.Ticker) (sampled : bool) :
  Log10 nan = nan ->
  Audio.calculateRMS [] = nan /\
  PrimFloat.eqb (Audio.calculateRMS []) 0%float = false /\
  Audio.calculateDecibels Log10 [] = nan /\
  Audio.calculateDecibels Log10 [] <> neg_infinity /\
  PrimFloat.ltb thr (Audio.calculateDecibels Log10 []) = false /\
  Audio.detections
    (snd (Audio.tick Log10 clock thr d s
            {| Audio.bite := []; Audio.sampled := sampled |})) = [] /\
  fst (Audio.tick Log10 clock thr d s
         {| Audio.bite := []; Audio.sampled := sampled |}) = s.
Proof.
  intros Hlog.
  assert (Hrms : Audio.calculateRMS [] = nan) by (vm_compute; reflexivity).
  assert (Hdb : Audio.calculateDecibels Log10 [] = nan).
  { unfold Audio.calculateDecibels. rewrite Hrms.
    change (PrimFloat.eqb nan 0%float) with false. cbv iota.
    change (PrimFloat.div nan Audio.referenceLevel) with nan.
    rewrite Hlog. reflexivity. }
  assert (Hlt : PrimFloat.ltb thr (Audio.calculateDecibels Log10 []) = false).
  { rewrite Hdb. apply ltb_nan_r. }
  split; [exact Hrms |]. split; [rewrite Hrms; reflexivity |].
  split; [exact Hdb |]. split.
  { rewrite Hdb. intros H. apply (f_equal PrimFloat.is_nan) in H.
    vm_compute in H. discriminate. }
  split; [exact Hlt |].
  rewrite (tick_quiet Log10 clock thr d s
             {| Audio.bite := []; Audio.sampled := sampled |} Hlt).
  simpl. split; [apply detections_logged_only | reflexivity].
Qed.

Lemma empty_window_is_NaN_witness :
  Audio.Log10_of (fun _ => 4%float) nan = nan /\
  Audio.calculateDecibels (Audio.Log10_of (fun _ => 4%float)) [] = nan /\
  Audio.detections
    (snd (Audio.tick (Audio.Log10_of (fun _ => 4%float)) tenth_of_second_clock
            Audio.DefaultClubStrikeDecibelThreshold
            Audio.DefaultMinDetectionInterval Audio.start
            {| Audio.bite := []; Audio.sampled := true |})) = [].
Proof.
  assert (H : Audio.Log10_of (fun _ => 4%float) nan = nan)
    by (vm_compute; reflexivity).
  split; [exact H |].
  destruct (empty_window_is_NaN (Audio.Log10_of (fun _ => 4%float))
              tenth_of_second_clock Audio.DefaultClubStrikeDecibelThreshold
              Audio.DefaultMinDetectionInterval Audio.start true H)
    as (_ & _ & Hdb & _ & _ & Hdet & _).
  split; [exact Hdb | exact Hdet].
Defined.

(** ** Clip file names *)

Lemma follows_app (l1 l2 s1 s2 : string) :
  Clip.follows l1 s1 = true -> Clip.follows l2 s2 = true ->
  Clip.follows (l1 ++ l2) (s1 ++ s2) = true.
Proof.
  revert s1. induction l1 as [| p l1 IH]; intros s1 H1 H2.
  - destruct s1; [exact H2 | discriminate].
  - destruct s1 as [| c s1]; [discriminate |]. simpl in *.
    apply andb_true_iff in H1 as [Hc H1]. rewrite Hc. simpl.
    apply IH; assumption.
Qed.

Lemma appendInt_two_digits (layout : string) (x : Z) :
  In layout ["MM"; "DD"; "HH"; "SS"]%string -> 0 <= x <= 99 ->
  Clip.follows layout (Clip.appendInt x 2) = true.
Proof.
  intros Hl Hx.
  assert (Hall : forallb
            (fun l => forallb
               (fun k => Clip.follows l (Clip.appendInt (Z.of_nat k) 2))
               (seq 0 100))
            ["MM"; "DD"; "HH"; "SS"]%string = true) by (vm_compute; reflexivity).
  rewrite forallb_forall in Hall. specialize (Hall layout Hl).
  rewrite forallb_forall in Hall.
  rewrite <- (Z2Nat.id x) by lia. apply Hall, in_seq. lia.
Qed.

Lemma is_digit_digit (n : Z) : Clip.is_digit (Clip.digit n) = true.
Proof.
  unfold Clip.digit. pose proof (Z.mod_pos_bound n 10 ltac:(lia)) as Hb.
  assert (Hall : forallb (fun k => Clip.is_digit (ascii_of_nat (48 + k)))
                   (seq 0 10) = true) by reflexivity.
  rewrite forallb_forall in Hall. apply Hall, in_seq. lia.
Qed.

Lemma follows_four (a b c d : ascii) :
  Clip.is_digit a = true -> Clip.is_digit b = true ->
  Clip.is_digit c = true -> Clip.is_digit d = true ->
  Clip.follows "YYYY" (String a (String b (String c (String d EmptyString))))
  = true.
Proof.
  intros Ha Hb Hc Hd.
  change (Clip.is_digit a && (Clip.is_digit b && (Clip.is_digit c
            && (Clip.is_digit d && true))) = true).
  rewrite Ha, Hb, Hc, Hd. reflexivity.
Qed.

Lemma appendInt_four_digits (x : Z) :
  0 <= x <= 9999 -> Clip.follows "YYYY" (Clip.appendInt x 4) = true.
Proof.
  intros Hx. unfold Clip.appendInt. rewrite Z.abs_eq by lia.
  destruct (Z.ltb_spec x 0) as [| _]; [lia |].
  cbn [Clip.utoa].
  destruct (Z.ltb_spec x 10) as [| H1].
  { apply follows_four; try reflexivity. apply is_digit_digit. }
  destruct (Z.ltb_spec (x / 10) 10) as [| H2].
  { apply follows_four; try reflexivity; apply is_digit_digit. }
  destruct (Z.ltb_spec (x / 10 / 10) 10) as [| H3].
  { apply follows_four; try reflexivity; apply is_digit_digit. }
  destruct (Z.ltb_spec (x / 10 / 10 / 10) 10) as [| H4].
  { apply follows_four; try reflexivity; apply is_digit_digit. }
  exfalso. revert H4. Z.div_mod_to_equations. lia.
Qed.

Lemma follows_length (layout s : string) :
  Clip.follows layout s = true -> String.length s = String.length layout.
Proof.
  revert s. induction layout as [| p layout IH]; intros [| c s] H;
    try discriminate; [reflexivity |].
  simpl in *. apply andb_true_iff in H as [_ H]. rewrite (IH s H). reflexivity.
Qed.

Lemma Format_follows_layout (t : Clip.Civil) :
  Clip.valid t -> Clip.follows "YYYY-MM-DD HH-MM-SS" (Clip.Format t) = true.
Proof.
  intros (Hy & Hmo & Hd & Hh & Hmi & Hs). unfold Clip.Format.
  change "YYYY-MM-DD HH-MM-SS"
    with ("YYYY" ++ "-" ++ "MM" ++ "-" ++ "DD" ++ " " ++ "HH" ++ "-" ++ "MM"
          ++ "-" ++ "SS")%string.
  repeat (apply follows_app;
          [first [ apply appendInt_four_digits; lia
                 | apply appendInt_two_digits; [simpl; tauto | lia]
                 | reflexivity ] |]).
  apply appendInt_two_digits; [simpl; tauto | lia].
Qed.

Lemma prefix_app (p b : string) : String.prefix p (p ++ b) = true.
Proof.
  induction p as [| c p IH]; simpl.
  - destruct b; reflexivity.
  - destruct (ascii_dec c c); [exact IH | contradiction].
Qed.

Lemma occurs_prefix (p s : string) :
  String.prefix p s = true -> Clip.occurs p s = true.
Proof. intros H. destruct s; cbn [Clip.occurs]; rewrite H; reflexivity. Qed.

Lemma occurs_app (a p b : string) : Clip.occurs p (a ++ p ++ b) = true.
Proof.
  induction a as [| c a IH].
  - change ("" ++ p ++ b)%string with (p ++ b)%string.
    apply occurs_prefix, prefix_app.
  - change (String c a ++ p ++ b)%string with (String c (a ++ p ++ b)).
    cbn [Clip.occurs]. rewrite IH. apply orb_true_r.
Qed.

Example clipFile_front :
  Clip.clipFile "front" an_instant = "videos/2024-01-02 03-04-05 front.avi".
Proof. reflexivity. Qed.

(** C8 as stated fails: the clip of stream "front" saved at 2024-01-02
    03:04:05 is not named [<dir>front 2024-01-02 03-04-05.<ext>] for any
    directory and extension. *)
Lemma clip_file_name_counterexample :
  ~ exists dir ext : string,
      Clip.clipFile "front" an_instant =
      Clip.spec_clipFile dir "front" (Clip.Format an_instant) ext.
Proof.
  intros (dir & ext & H).
  assert (Hocc : Clip.occurs "front 2024-01-02 03-04-05."
                   (Clip.clipFile "front" an_instant) = true).
  { rewrite H. unfold Clip.spec_clipFile.
    change ("front" ++ " " ++ Clip.Format an_instant ++ "." ++ ext)%string
      with ("front 2024-01-02 03-04-05." ++ ext)%string.
    apply occurs_app. }
  vm_compute in Hocc. discriminate.
Qed.

(** C8, amended.  The clip of stream [name] saved at [t] is named
    [videos/<timestamp> <name>.avi]: the fixed relative directory
    [videos/], then the time stamp, a space, the stream name, and [.avi];
    for a four-digit year the time stamp has the form
    [YYYY-MM-DD HH-MM-SS]. *)
Theorem clip_file_name (name : string) (t : Clip.Civil) :
  Clip.valid t ->
  exists timestamp : string,
    Clip.clipFile name t = ("videos/" ++ timestamp ++ " " ++ name ++ ".avi")%string /\
    timestamp = Clip.Format t /\
    Clip.follows "YYYY-MM-DD HH-MM-SS" timestamp = true /\
    String.length timestamp = 19%nat.
Proof.
  intros Hv. exists (Clip.Format t).
  pose proof (Format_follows_layout t Hv) as Hf.
  repeat split; try assumption; try reflexivity.
  apply (follows_length _ _ Hf).
Qed.

Lemma clip_file_name_witness :
  Clip.valid an_instant /\
  exists timestamp : string,
    Clip.clipFile "back" an_instant =
      ("videos/" ++ timestamp ++ " " ++ "back" ++ ".avi")%string /\
    Clip.follows "YYYY-MM-DD HH-MM-SS" timestamp = true.
Proof.
  assert (Hv : Clip.valid an_instant).
  { unfold Clip.valid, an_instant. simpl. lia. }
  split; [exact Hv |].
  destruct (clip_file_name "back" an_instant Hv) as (ts & H1 & _ & H3 & _).
  exists ts. split; assumption.
Defined.

(** ** Clip playback *)

Section PlaybackRun.

Variable files : Files.
Variable stop_at : nat -> bool.
Variable v : Playback.VideoPlayback.
Variable playbackSpeed : float.
Variable clip : list Mat.
Hypothesis file_opens : files (Playback.file v) = Some clip.

Local Abbreviation exec := (Playback.exec files stop_at v playbackSpeed).
Local Abbreviation step1 := (Playback.step1 files stop_at v playbackSpeed).

Lemma exec_add (a b : nat) (r : Playback.Run) :
  exec (a + b) r = exec b (exec a r).
Proof using Type.
  revert r. induction a as [| a IH]; intros r; [reflexivity |].
  simpl. apply IH.
Qed.

Lemma exec_Returned (n : nat) (c : nat) (tr : list Playback.Event) :
  exec n {| Playback.pc := Playback.Returned; Playback.selects := c;
            Playback.trace := tr |}
  = {| Playback.pc := Playback.Returned; Playback.selects := c;
       Playback.trace := tr |}.
Proof using Type.
  induction n as [| n IH]; [reflexivity |].
  simpl. unfold Playback.step1 at 1. simpl. rewrite app_nil_r. exact IH.
Qed.

Lemma exec_trace_grows (n : nat) (r : Playback.Run) :
  exists more, Playback.trace (exec n r) = Playback.trace r ++ more.
Proof using Type.
  revert r. induction n as [| n IH]; intros r.
  - exists []. simpl. rewrite app_nil_r. reflexivity.
  - simpl. destruct (IH (step1 r)) as (more & Hm). rewrite Hm.
    unfold Playback.step1 at 1. simpl. rewrite <- app_assoc. eexists. reflexivity.
Qed.

Lemma shown_app (l1 l2 : list Playback.Event) :
  Playback.shown (l1 ++ l2) = Playback.shown l1 ++ Playback.shown l2.
Proof using Type. unfold Playback.shown. apply flat_map_app. Qed.

(** Reading the rest of the file with no stop in the way: the playable
    frames are shown in order and the playback is back at the open. *)
Lemma read_to_end (j : nat) (rest : list Mat) :
  quiet_before stop_at j ->
  forall (c : nat) (tr : list Playback.Event),
    (c + length (Playback.playable rest) <= j)%nat ->
    exists n tr',
      exec n {| Playback.pc := Playback.AtRead rest; Playback.selects := c;
                Playback.trace := tr |}
      = {| Playback.pc := Playback.AtOpen;
           Playback.selects := (c + length (Playback.playable rest))%nat;
           Playback.trace := tr' |} /\
      Playback.shown tr' = Playback.shown tr ++ Playback.playable rest.
Proof using Type.
  intros Hq. induction rest as [| f rest IH]; intros c tr Hc.
  - exists 1%nat. eexists. split.
    + simpl. unfold Playback.step1. simpl. rewrite Nat.add_0_r. reflexivity.
    + rewrite shown_app. simpl. rewrite !app_nil_r. reflexivity.
  - simpl in Hc |- *. destruct (Empty f) eqn:He; simpl in Hc |- *.
    + destruct (IH c tr Hc) as (n & tr' & Hn & Hs).
      exists (S n), tr'. split; [| exact Hs].
      simpl. unfold Playback.step1 at 1. simpl. rewrite He. simpl.
      rewrite app_nil_r. exact Hn.
    + destruct (IH (S c) (tr ++ [Playback.EvShow f]
                             ++ [Playback.EvSleep (Playback.frameDelay v playbackSpeed)]))
        as (n & tr' & Hn & Hs); [lia |].
      exists (4 + n)%nat, tr'. split.
      * rewrite exec_add. simpl. unfold Playback.step1. simpl. rewrite He. simpl.
        rewrite (Hq c) by lia. simpl. rewrite !app_nil_r, <- !app_assoc.
        rewrite Hn. f_equal. lia.
      * rewrite Hs, !shown_app. simpl. rewrite ?app_nil_r, <- ?app_assoc. reflexivity.
Qed.

(** Reading with a stop waiting at select [j], reached in this pass: the
    playback returns at that select, before handing the frame on. *)
Lemma read_to_stop (j : nat) (rest : list Mat) :
  quiet_before stop_at j -> stop_at j = true ->
  forall (c : nat) (tr : list Playback.Event),
    (c <= j < c + length (Playback.playable rest))%nat ->
    exists n tr',
      exec n {| Playback.pc := Playback.AtRead rest; Playback.selects := c;
                Playback.trace := tr |}
      = {| Playback.pc := Playback.Returned; Playback.selects := S j;
           Playback.trace := tr' |} /\
      Playback.shown tr' =
        Playback.shown tr ++ take (j - c) (Playback.playable rest).
Proof using Type.
  intros Hq Hj. induction rest as [| f rest IH]; intros c tr Hc.
  - simpl in Hc. lia.
  - simpl in Hc |- *. destruct (Empty f) eqn:He; simpl in Hc |- *.
    + destruct (IH c tr Hc) as (n & tr' & Hn & Hs).
      exists (S n), tr'. split; [| exact Hs].
      simpl. unfold Playback.step1 at 1. simpl. rewrite He. simpl.
      rewrite app_nil_r. exact Hn.
    + destruct (Nat.eq_dec c j) as [-> | Hne].
      * exists 2%nat. eexists. split.
        -- simpl. unfold Playback.step1. simpl. rewrite He. simpl. rewrite Hj.
           simpl. reflexivity.
        -- rewrite Nat.sub_diag, !shown_app. simpl. rewrite !app_nil_r. reflexivity.
      * destruct (IH (S c) (tr ++ [Playback.EvShow f]
                               ++ [Playback.EvSleep (Playback.frameDelay v playbackSpeed)]))
          as (n & tr' & Hn & Hs); [lia |].
        exists (4 + n)%nat, tr'. split.
        -- rewrite exec_add. simpl. unfold Playback.step1. simpl. rewrite He. simpl.
           rewrite (Hq c) by lia. simpl. rewrite !app_nil_r, <- !app_assoc.
           exact Hn.
        -- rewrite Hs, !shown_app. simpl. rewrite ?app_nil_r, <- ?app_assoc.
           replace (j - c)%nat with (S (j - S c)) by lia. reflexivity.
Qed.

Lemma open_step (c : nat) (tr : list Playback.Event) :
  step1 {| Playback.pc := Playback.AtOpen; Playback.selects := c;
           Playback.trace := tr |}
  = {| Playback.pc := Playback.AtRead clip; Playback.selects := c;
       Playback.trace :=
         tr ++ [Playback.EvVideoCaptureFile (Playback.file v) true] |}.
Proof using file_opens.
  unfold Playback.step1. simpl. rewrite file_opens. reflexivity.
Qed.

(** Whole passes over the clip. *)
Lemma passes (j m : nat) :
  quiet_before stop_at j ->
  (m * length (Playback.playable clip) <= j)%nat ->
  exists n tr,
    exec n Playback.start
    = {| Playback.pc := Playback.AtOpen;
         Playback.selects := (m * length (Playback.playable clip))%nat;
         Playback.trace := tr |} /\
    Playback.shown tr = concat (replicate m (Playback.playable clip)).
Proof using file_opens.
  intros Hq. induction m as [| m IH]; intros Hm.
  - exists 0%nat, []. split; reflexivity.
  - destruct IH as (n & tr & Hn & Hs); [lia |].
    destruct (read_to_end j clip Hq (m * length (Playback.playable clip))
                (tr ++ [Playback.EvVideoCaptureFile (Playback.file v) true]))
      as (n2 & tr2 & Hn2 & Hs2); [lia |].
    exists (n + (1 + n2))%nat, tr2. split.
    + rewrite exec_add, Hn. cbn [Nat.add Playback.exec].
      rewrite open_step, Hn2. f_equal. lia.
    + rewrite Hs2, shown_app, Hs. simpl. rewrite app_nil_r.
      clear. induction m as [| m IH]; simpl; [rewrite app_nil_r; reflexivity |].
      rewrite <- app_assoc, <- IH. reflexivity.
Qed.

Lemma step1_returned_on_stop (r : Playback.Run) :
  returned_on_stop stop_at r -> returned_on_stop stop_at (step1 r).
Proof using file_opens.
  unfold returned_on_stop. destruct r as [pc c tr].
  destruct pc as [| [| f rest] | f rest | f rest | rest |];
    unfold Playback.step1; simpl; intros Hr Hret; try discriminate.
  - rewrite file_opens in Hret. discriminate.
  - destruct (Empty f); discriminate.
  - destruct (stop_at c) eqn:Hstop; [| discriminate].
    exists c. split; [lia | exact Hstop].
  - exact (Hr eq_refl).
Qed.

Lemma exec_returned_on_stop (n : nat) (r : Playback.Run) :
  returned_on_stop stop_at r -> returned_on_stop stop_at (exec n r).
Proof using file_opens.
  revert r. induction n as [| n IH]; intros r Hr; [exact Hr |].
  simpl. apply IH, step1_returned_on_stop, Hr.
Qed.

Lemma exec_shown_grows (n n' : nat) (r : Playback.Run) :
  (n <= n')%nat ->
  exists more,
    Playback.shown (Playback.trace (exec n' r)) =
    Playback.shown (Playback.trace (exec n r)) ++ more.
Proof using Type.
  intros Hle. replace n' with (n + (n' - n))%nat by lia. rewrite exec_add.
  destruct (exec_trace_grows (n' - n) (exec n r)) as (more & Hm).
  rewrite Hm, shown_app. eexists. reflexivity.
Qed.

End PlaybackRun.

Lemma concat_replicate_lookup {A : Type} (l : list A) (m i : nat) :
  (i < m * length l)%nat ->
  concat (replicate m l) !! i = l !! (i mod length l)%nat.
Proof.
  revert i. induction m as [| m IH]; intros i Hi; [simpl in Hi; lia |].
  simpl in Hi |- *. destruct (Nat.lt_ge_cases i (length l)) as [Hlt | Hge].
  - rewrite lookup_app_l by exact Hlt. rewrite Nat.mod_small by exact Hlt.
    reflexivity.
  - rewrite lookup_app_r by exact Hge. rewrite IH by lia.
    replace i with ((i - length l) + 1 * length l)%nat at 2 by lia.
    rewrite Nat.Div0.mod_add. reflexivity.
Qed.

Lemma playable_all (clip : list Mat) :
  Forall (fun f => Empty f = false) clip -> Playback.playable clip = clip.
Proof.
  induction 1 as [| f rest Hf _ IH]; [reflexivity |].
  unfold Playback.playable in *. simpl. rewrite Hf. simpl. rewrite IH. reflexivity.
Qed.

(** C7.  A playback whose clip file opens, with [frames] the frames of the
    clip it hands on (the non-empty ones; all of them when none is empty)
    and [K] their number.  While no stop is waiting it never returns, each
    pass shows [frames] once more and ends back at the open of the same
    file, and the [i]-th frame shown is [frames !! (i mod K)]: after the
    [K]-th frame comes the first again.  When the first stop waits at the
    [j]-th [select], the playback returns there, having shown exactly the
    [j] frames before it.  It returns only at a [select] where a stop was
    waiting. *)
Theorem playback_loops_until_stopped (files : Files)
    (stop_at : nat -> bool) (v : Playback.VideoPlayback)
    (playbackSpeed : float) (clip : list Mat) :
  files (Playback.file v) = Some clip ->
  let run := fun n => Playback.exec files stop_at v playbackSpeed n Playback.start in
  let frames := Playback.playable clip in
  let K := length frames in
  ((forall k, stop_at k = false) ->
     (forall n, Playback.pc (run n) <> Playback.Returned) /\
     (forall m, exists n,
        Playback.pc (run n) = Playback.AtOpen /\
        Playback.shown (Playback.trace (run n)) = concat (replicate m frames)) /\
     (forall i, (0 < K)%nat ->
        exists n, forall n', (n <= n')%nat ->
          Playback.shown (Playback.trace (run n')) !! i = frames !! (i mod K)%nat)) /\
  (forall j, (0 < K)%nat ->
     (forall k, (k < j)%nat -> stop_at k = false) -> stop_at j = true ->
     exists n, forall n', (n <= n')%nat ->
       Playback.pc (run n') = Playback.Returned /\
       Playback.shown (Playback.trace (run n')) =
         concat (replicate (j / K) frames) ++ take (j mod K) frames) /\
  (forall n, Playback.pc (run n) = Playback.Returned ->
     exists k, (k < Playback.selects (run n))%nat /\ stop_at k = true) /\
  (Forall (fun f => Empty f = false) clip -> frames = clip).
Proof.
  intros Hopen run frames K.
  assert (Hret : forall n, Playback.pc (run n) = Playback.Returned ->
                 exists k, (k < Playback.selects (run n))%nat /\ stop_at k = true).
  { intros n. apply (exec_returned_on_stop files stop_at v playbackSpeed clip Hopen).
    intros Hpc. discriminate. }
  split; [| split; [| split; [exact Hret | apply playable_all]]].
  - intros Hquiet. split; [| split].
    + intros n Hpc. destruct (Hret n Hpc) as (k & _ & Hk).
      rewrite Hquiet in Hk. discriminate.
    + intros m.
      destruct (passes files stop_at v playbackSpeed clip Hopen (m * K) m)
        as (n & tr & Hn & Hs); [intros k _; apply Hquiet | reflexivity |].
      exists n. unfold run. rewrite Hn. simpl. split; [reflexivity | exact Hs].
    + intros i HK.
      destruct (passes files stop_at v playbackSpeed clip Hopen
                  (S (i / K) * K) (S (i / K)))
        as (n & tr & Hn & Hs); [intros k _; apply Hquiet | reflexivity |].
      pose proof (Nat.div_mod_eq i K) as Hdm.
      pose proof (Nat.mod_upper_bound i K ltac:(lia)) as Hmod.
      destruct (lookup_lt_is_Some_2 frames (i mod K) Hmod) as (x & Hx).
      exists n. intros n' Hle.
      destruct (exec_shown_grows files stop_at v playbackSpeed n n'
                  Playback.start Hle) as (more & Hmore).
      unfold run. rewrite Hmore, Hn. simpl. rewrite Hs, Hx.
      apply lookup_app_l_Some. rewrite concat_replicate_lookup; [exact Hx |].
      change (i < S (i / K) * K)%nat. lia.
  - intros j HK Hquiet Hstop.
    pose proof (Nat.div_mod_eq j K) as Hdm.
    pose proof (Nat.mod_upper_bound j K ltac:(lia)) as Hmod.
    destruct (passes files stop_at v playbackSpeed clip Hopen j (j / K) Hquiet)
      as (n & tr & Hn & Hs); [fold frames; fold K; nia |].
    destruct (read_to_stop files stop_at v playbackSpeed j clip Hquiet Hstop
                (j / K * K)%nat
                (tr ++ [Playback.EvVideoCaptureFile (Playback.file v) true]))
      as (n2 & tr2 & Hn2 & Hs2); [fold frames; fold K; nia |].
    exists (n + (1 + n2))%nat. intros n' Hle.
    replace n' with ((n + (1 + n2)) + (n' - (n + (1 + n2))))%nat by lia.
    unfold run. rewrite (exec_add _ _ _ _ (n + (1 + n2))), exec_add.
    fold frames in Hn. fold K in Hn. rewrite Hn.
    cbn [Nat.add Playback.exec].
    rewrite (open_step files stop_at v playbackSpeed clip Hopen), Hn2.
    rewrite exec_Returned. simpl. split; [reflexivity |].
    rewrite Hs2, shown_app, Hs. simpl. rewrite app_nil_r.
    fold frames. replace (j - j / K * K)%nat with (j mod K)%nat by nia.
    reflexivity.
Qed.

Lemma playback_loops_until_stopped_witness :
  disk (Playback.file front_playback) = Some two_frames /\
  exists n, forall n', (n <= n')%nat ->
    Playback.shown
      (Playback.trace
         (Playback.exec disk (fun _ => false) front_playback
            Playback.DefaultPlaybackSpeed n' Playback.start)) !! 2%nat
    = Some (MatData 1 false).
Proof.
  assert (Hopen : disk (Playback.file front_playback) = Some two_frames)
    by (vm_compute; reflexivity).
  split; [exact Hopen |].
  destruct (playback_loops_until_stopped disk (fun _ => false) front_playback
              Playback.DefaultPlaybackSpeed two_frames Hopen)
    as ((_ & _ & Hloop) & _); [reflexivity |].
  destruct (Hloop 2%nat) as (n & Hn); [simpl; lia |].
  exists n. exact Hn.
Defined.

(** Running the model: three frames shown after fourteen steps, and a stop
    waiting at the second select ends the playback after one frame. *)
Example playback_wraps :
  Playback.shown
    (Playback.trace
       (Playback.exec disk (fun _ => false) front_playback
          Playback.DefaultPlaybackSpeed 14 Playback.start))
  = [MatData 1 false; MatData 2 false; MatData 1 false].
Proof. vm_compute. reflexivity. Qed.

Example playback_stops :
  let r := Playback.exec disk (fun k => (k =? 1)%nat) front_playback
             Playback.DefaultPlaybackSpeed 14 Playback.start in
  Playback.pc r = Playback.Returned /\
  Playback.shown (Playback.trace r) = [MatData 1 false].
Proof. vm_compute. split; reflexivity. Qed.

(** ** The delayed save signal *)

Lemma Since_exact (now t : GoTime.Time) :
  GoTime.is_Duration (now - t) -> GoTime.Since now t = now - t.
Proof.
  unfold GoTime.is_Duration, GoTime.Since, GoTime.Sub. lia.
Qed.

Lemma wrap64_exact (z : Z) : GoTime.is_Duration z -> GoTime.wrap64 z = z.
Proof.
  unfold GoTime.is_Duration, GoTime.minDuration, GoTime.maxDuration, GoTime.wrap64.
  change (2 ^ 63) with 9223372036854775808.
  change (2 ^ 64) with 18446744073709551616.
  intros H. Z.div_mod_to_equations. lia.
Qed.

(** C3.  [Save], called at [now] for a Detection that occurred at
    [occurredAt], with the elapsed time and the difference in the range of
    a Duration: it computes
    [delay = durationToCaptureAfterEvent - (now - occurredAt)], sleeps for
    [delay] and then sends on the save channel.  When [delay <= 0] the
    sleep takes no time and the send happens at [now]; otherwise it happens
    [delay] later, that is [durationToCaptureAfterEvent] after the
    Detection. *)
Theorem Save_sleeps_for_the_remaining_delay (v : Capture.VideoProfile)
    (now : GoTime.Time) (detection : Audio.Detection) :
  let occurredAt := Audio.DetectionTime detection in
  let delay := Capture.durationToCaptureAfterEvent v - (now - occurredAt) in
  GoTime.is_Duration (now - occurredAt) ->
  GoTime.is_Duration delay ->
  Capture.Save v now detection =
    [Capture.EvPrintf "delaying saving video by %s\n" [AInt delay];
     Capture.EvSleep delay;
     Capture.EvSendSave] /\
  (delay <= 0 ->
     GoTime.slept delay = 0 /\
     Capture.send_time now (Capture.Save v now detection) = Some now) /\
  (0 < delay ->
     GoTime.slept delay = delay /\
     Capture.send_time now (Capture.Save v now detection) =
       Some (occurredAt + Capture.durationToCaptureAfterEvent v)).
Proof.
  intros occurredAt delay Hel Hd.
  assert (Hs : Capture.Save v now detection =
               [Capture.EvPrintf "delaying saving video by %s\n" [AInt delay];
                Capture.EvSleep delay; Capture.EvSendSave]).
  { unfold Capture.Save. fold occurredAt.
    rewrite (Since_exact now occurredAt Hel).
    fold delay. rewrite (wrap64_exact delay Hd). reflexivity. }
  split; [exact Hs |]. rewrite Hs. simpl. unfold GoTime.slept.
  split; intros Hsign.
  - rewrite Z.max_l by lia. split; [reflexivity |]. f_equal. lia.
  - rewrite Z.max_r by lia. split; [reflexivity |]. f_equal.
    unfold delay. lia.
Qed.

(** The scenario of the specification: a post-event duration of two
    seconds, and a save requested one second after the Detection, sleeps
    one second. *)
Lemma Save_sleeps_for_the_remaining_delay_witness :
  GoTime.is_Duration (11 * GoTime.Second - 10 * GoTime.Second) /\
  Capture.Save
    {| Capture.name := "front";
       Capture.durationToCaptureAfterEvent :=
         Capture.DefaultDurationToCaptureAfterEvent |}
    (11 * GoTime.Second)
    {| Audio.Decibel := 95%float; Audio.DetectionTime := 10 * GoTime.Second |}
  = [Capture.EvPrintf "delaying saving video by %s\n" [AInt GoTime.Second];
     Capture.EvSleep GoTime.Second;
     Capture.EvSendSave].
Proof.
  assert (H1 : GoTime.is_Duration (11 * GoTime.Second - 10 * GoTime.Second)).
  { unfold GoTime.is_Duration. vm_compute. split; discriminate. }
  split; [exact H1 |].
  apply (Save_sleeps_for_the_remaining_delay
           {| Capture.name := "front";
              Capture.durationToCaptureAfterEvent :=
                Capture.DefaultDurationToCaptureAfterEvent |}
           (11 * GoTime.Second)
           {| Audio.Decibel := 95%float;
              Audio.DetectionTime := 10 * GoTime.Second |}).
  - exact H1.
  - unfold GoTime.is_Duration. vm_compute. split; discriminate.
Defined.

(** Without the range assumptions the sleep is for the wrapped difference
    of the saturated elapsed time. *)
Lemma Save_trace (v : Capture.VideoProfile) (now : GoTime.Time)
    (detection : Audio.Detection) :
  exists delay,
    delay = GoTime.wrap64
              (Capture.durationToCaptureAfterEvent v
               - GoTime.Since now (Audio.DetectionTime detection)) /\
    Capture.Save v now detection =
      [Capture.EvPrintf "delaying saving video by %s\n" [AInt delay];
       Capture.EvSleep delay; Capture.EvSendSave] /\
    Capture.send_time now (Capture.Save v now detection) =
      Some (now + GoTime.slept delay).
Proof. eexists. split; [reflexivity |]. split; reflexivity. Qed.

(** ** The capture loop and its playbacks *)










(** *** A run of the model *)


(** Two saves in a row: playback 0 shows a frame, the second save signal
    stops it before the buffer is saved again, and playback 1 takes over. *)
Example second_save_replaces_playback :
  exists s,
    Capture.reachable front (Capture.initial full_buffer no_files) s /\
    Capture.playback s = Some 1%nat /\
    Capture.running s 1 /\
    ~ Capture.running s 0 /\
    In (Capture.EvPlayback 0 (Playback.EvShow (MatData 1 false)))
      (Capture.log s) /\
    In (Capture.EvPlayback 1 (Playback.EvShow (MatData 1 false)))
      (Capture.log s).
Proof.
  pose proof (Capture.reach_start front (Capture.initial full_buffer no_files)) as H.
  eapply Capture.reach_step in H;
    [| eapply Capture.step_save_idle; reflexivity ].
  buffer_saved H.
  do 6 playback_moves H 0%nat.
  eapply Capture.reach_step in H;
    [| eapply (Capture.step_save_playing _ _ 0%nat); reflexivity ].
  evaluate_state H.
  eapply Capture.reach_step in H;
    [| eapply (Capture.step_stop_received _ _ 0%nat); reflexivity ].
  evaluate_state H.
  buffer_saved H.
  do 4 playback_moves H 1%nat.
  eexists. split; [exact H |].
  split; [reflexivity |]. split.
  { eexists _, _. split; [reflexivity | discriminate]. }
  split.
  { intros (pv & pc & Hlk & Hne). injection Hlk as <- <-. apply Hne. reflexivity. }
  split; simpl; tauto.
Qed.

(** * Further properties *)

(** ** The frame buffer: evictions and the results of Save *)






Lemma write_frames_nil_result (w : Buffer.VideoWriter) (fs : list Mat) :
  forall (k : nat) (evs : list Buffer.Event),
    Buffer.write_frames w k fs = (None, evs) ->
    (forall i m, fs !! i = Some m -> Buffer.write_err w (k + i) m = None) /\
    evs = map (fun m => Buffer.EvWrite m true) fs.
Proof.
  induction fs as [| f fs IH]; intros k evs H; simpl in H.
  - injection H as <-. split; [intros i m Hi; destruct i; discriminate |].
    reflexivity.
  - destruct (Buffer.write_err w k f) eqn:Hf; [discriminate |].
    destruct (Buffer.write_frames w (S k) fs) as [r evs'] eqn:Hrest.
    injection H as -> <-. destruct (IH (S k) evs' Hrest) as [Hall ->].
    split; [| reflexivity].
    intros [| i] m Hi; simpl in Hi.
    + injection Hi as <-. rewrite Nat.add_0_r. exact Hf.
    + rewrite <- Nat.add_succ_comm. apply Hall, Hi.
Qed.

Lemma write_frames_all_ok (w : Buffer.VideoWriter) (fs : list Mat) :
  forall k : nat,
    (forall i m, fs !! i = Some m -> Buffer.write_err w (k + i) m = None) ->
    Buffer.write_frames w k fs = (None, map (fun m => Buffer.EvWrite m true) fs).
Proof.
  induction fs as [| f fs IH]; intros k Hall; simpl; [reflexivity |].
  rewrite <- (Nat.add_0_r k) at 1. rewrite (Hall 0%nat f eq_refl).
  rewrite IH; [reflexivity |].
  intros i m Hi. rewrite Nat.add_succ_comm. apply (Hall (S i) m Hi).
Qed.

(** The loop of [Save] stops at the first write that fails. *)
Lemma write_frames_first_failure (w : Buffer.VideoWriter) (fs : list Mat) :
  forall (k j : nat) (m : Mat) (err : error),
    fs !! j = Some m -> Buffer.write_err w (k + j) m = Some err ->
    (forall i m', (i < j)%nat -> fs !! i = Some m' ->
                  Buffer.write_err w (k + i) m' = None) ->
    Buffer.write_frames w k fs =
      (Some (ErrorfW "error writing frame (%d): %w" [Z.of_nat (k + j)] err),
       map (fun m => Buffer.EvWrite m true) (take j fs)
       ++ [Buffer.EvWrite m false]).
Proof.
  induction fs as [| f fs IH]; intros k j m err Hj Herr Hbefore.
  - destruct j; discriminate.
  - destruct j as [| j]; simpl in Hj |- *.
    + injection Hj as ->. rewrite Nat.add_0_r in Herr. rewrite Herr.
      rewrite Nat.add_0_r. reflexivity.
    + pose proof (Hbefore 0%nat f ltac:(lia) eq_refl) as H0.
      rewrite Nat.add_0_r in H0. rewrite H0.
      rewrite (IH (S k) j m err Hj).
      * rewrite Nat.add_succ_comm. reflexivity.
      * rewrite Nat.add_succ_comm. exact Herr.
      * intros i m' Hi Hm'. rewrite Nat.add_succ_comm.
        apply (Hbefore (S i) m'); [lia | exact Hm'].
Qed.

Lemma written_app (l1 l2 : list Buffer.Event) :
  Buffer.written (l1 ++ l2) = Buffer.written l1 ++ Buffer.written l2.
Proof. unfold Buffer.written. apply flat_map_app. Qed.

Lemma write_calls_app (l1 l2 : list Buffer.Event) :
  write_calls (l1 ++ l2) = (write_calls l1 + write_calls l2)%nat.
Proof. unfold write_calls. rewrite List.filter_app, length_app. reflexivity. Qed.

Lemma write_calls_writes (fs : list Mat) :
  write_calls (map (fun m => Buffer.EvWrite m true) fs) = length fs.
Proof.
  induction fs as [| f fs IH]; [reflexivity |].
  unfold write_calls in *. simpl. rewrite IH. reflexivity.
Qed.

(** X2.  [Save] returns nil exactly when the buffer is full, the video
    writer opens and every write succeeds; it has then written the slots in
    order, one write each, and closed the writer last. *)
Theorem Save_returns_nil_iff (w : Buffer.VideoWriter)
    (v : Buffer.VideoFrameBuffer) (file : string) (width height : Z)
    (fps : float) :
  (fst (Buffer.Save w v file width height fps) = None <->
   Buffer.Full v = true /\ Buffer.open_err w file = None /\
   forall i m, Buffer.frames v !! i = Some m -> Buffer.write_err w i m = None) /\
  (fst (Buffer.Save w v file width height fps) = None ->
   Buffer.written (snd (Buffer.Save w v file width height fps))
     = Buffer.frames v /\
   write_calls (snd (Buffer.Save w v file width height fps))
     = length (Buffer.frames v) /\
   last (snd (Buffer.Save w v file width height fps)) = Some Buffer.EvWriterClose).
Proof.
  unfold Buffer.Save.
  destruct (Buffer.Full v) eqn:Hfull; simpl.
  2: { split; [split; [discriminate | intros (H & _); discriminate] | discriminate]. }
  destruct (Buffer.open_err w file) as [e |] eqn:Hopen; simpl.
  { split; [split; [discriminate | intros (_ & H & _); discriminate] | discriminate]. }
  destruct (Buffer.write_frames w 0 (Buffer.frames v)) as [r evs] eqn:Hw. simpl.
  split.
  - split.
    + intros ->. destruct (write_frames_nil_result w _ 0 evs Hw) as [Hall _].
      repeat split. exact Hall.
    + intros (_ & _ & Hall).
      rewrite (write_frames_all_ok w _ 0 Hall) in Hw. injection Hw as <- _.
      reflexivity.
  - intros ->. destruct (write_frames_nil_result w _ 0 evs Hw) as [_ ->].
    rewrite written_app. simpl. rewrite written_writes, app_nil_r.
    split; [reflexivity |]. split.
    + change (write_calls
                (map (fun m => Buffer.EvWrite m true) (Buffer.frames v)
                 ++ [Buffer.EvWriterClose]) = length (Buffer.frames v)).
      rewrite write_calls_app, write_calls_writes. unfold write_calls. simpl. lia.
    + match goal with
      | |- last (?a :: ?l ++ [?x]) = _ =>
          change (last ((a :: l) ++ [x]) = Some x)
      end.
      apply last_snoc.
Qed.

Lemma Save_returns_nil_iff_witness :
  fst (Buffer.Save good_writer full_buffer "videos/clip.avi" 1280 720 120%float)
    = None /\
  Buffer.written
    (snd (Buffer.Save good_writer full_buffer "videos/clip.avi" 1280 720
            120%float)) = two_frames.
Proof.
  assert (H : fst (Buffer.Save good_writer full_buffer "videos/clip.avi"
                     1280 720 120%float) = None) by reflexivity.
  split; [exact H |].
  destruct (Save_returns_nil_iff good_writer full_buffer "videos/clip.avi"
              1280 720 120%float) as (_ & Hok).
  destruct (Hok H) as (Hw & _). exact Hw.
Defined.

(** X3.  On a full buffer, when the writer opens and the write of slot [k]
    is the first to fail, [Save] returns the error naming [k], having
    written the [k] slots before it; it makes no further write and still
    closes the writer.  When the writer does not open, [Save] returns that
    error wrapped, writes nothing and closes nothing. *)
Theorem Save_stops_at_first_failure (w : Buffer.VideoWriter)
    (v : Buffer.VideoFrameBuffer) (file : string) (width height : Z)
    (fps : float) :
  Buffer.Full v = true ->
  (forall (k : nat) (m : Mat) (err : error),
     Buffer.open_err w file = None ->
     Buffer.frames v !! k = Some m -> Buffer.write_err w k m = Some err ->
     (forall i m', (i < k)%nat -> Buffer.frames v !! i = Some m' ->
                   Buffer.write_err w i m' = None) ->
     fst (Buffer.Save w v file width height fps) =
       Some (ErrorfW "error writing frame (%d): %w" [Z.of_nat k] err) /\
     Buffer.written (snd (Buffer.Save w v file width height fps))
       = take k (Buffer.frames v) /\
     write_calls (snd (Buffer.Save w v file width height fps)) = S k /\
     last (snd (Buffer.Save w v file width height fps))
       = Some Buffer.EvWriterClose) /\
  (forall err : error,
     Buffer.open_err w file = Some err ->
     fst (Buffer.Save w v file width height fps) =
       Some (ErrorfW "error creating video writer: %w" [] err) /\
     write_calls (snd (Buffer.Save w v file width height fps)) = 0%nat /\
     ~ In Buffer.EvWriterClose (snd (Buffer.Save w v file width height fps))).
Proof.
  intros Hfull. unfold Buffer.Save. rewrite Hfull. simpl. split.
  - intros k m err Hopen Hk Herr Hbefore. rewrite Hopen.
    rewrite (write_frames_first_failure w (Buffer.frames v) 0 k m err Hk Herr Hbefore).
    simpl. split; [reflexivity |]. split; [| split].
    + rewrite !written_app, written_writes. simpl. rewrite !app_nil_r. reflexivity.
    + change (write_calls
                ((map (fun m => Buffer.EvWrite m true) (take k (Buffer.frames v))
                  ++ [Buffer.EvWrite m false]) ++ [Buffer.EvWriterClose]) = S k).
      rewrite !write_calls_app, write_calls_writes, length_take.
      apply lookup_lt_Some in Hk. unfold write_calls. simpl. lia.
    + match goal with
      | |- last (?a :: ?l ++ [?x]) = _ =>
          change (last ((a :: l) ++ [x]) = Some x)
      end.
      apply last_snoc.
  - intros err Hopen. rewrite Hopen. simpl. split; [reflexivity |].
    split; [reflexivity |].
    intros [H | [H | [H | [H | []]]]]; discriminate.
Qed.

Lemma Save_stops_at_first_failure_witness :
  Buffer.Full full_buffer = true /\
  fst (Buffer.Save second_write_fails full_buffer "videos/clip.avi" 1280 720
         120%float)
    = Some (ErrorfW "error writing frame (%d): %w" [1]
              (ExternalErr "disk full")) /\
  Buffer.written
    (snd (Buffer.Save second_write_fails full_buffer "videos/clip.avi" 1280
            720 120%float)) = [MatData 1 false].
Proof.
  split; [reflexivity |].
  destruct (Save_stops_at_first_failure second_write_fails full_buffer
              "videos/clip.avi" 1280 720 120%float eq_refl) as (Hfail & _).
  destruct (Hfail 1%nat (MatData 2 false) (ExternalErr "disk full")
              eq_refl eq_refl eq_refl) as (H1 & H2 & _).
  - intros [| i] m' Hi Hm'; [reflexivity | lia].
  - split; [exact H1 | exact H2].
Defined.

(** ** The rolling window of samples *)

Lemma lastn_lastn_app {A : Type} (n : nat) (a b : list A) :
  lastn n (lastn n a ++ b) = lastn n (a ++ b).
Proof.
  destruct (Nat.le_gt_cases (length a) n) as [Hle | Hgt].
  - rewrite (lastn_all n a Hle). reflexivity.
  - unfold lastn at 1 3. rewrite !length_app, lastn_length.
    rewrite Nat.min_r by lia. unfold lastn.
    replace (n + length b - n)%nat with (length b) by lia.
    replace (length a + length b - n)%nat
      with ((length a - n) + length b)%nat by lia.
    rewrite <- drop_drop. rewrite (drop_app_le a b) by lia. reflexivity.
Qed.

Lemma intake_lastn (bite : list float) (buffer : list Z) :
  Audio.intake bite buffer =
  lastn 4410 (bite ++ map Audio.float64_of_int buffer).
Proof.
  unfold Audio.intake, Audio.maxSignalLength, len, lastn.
  set (l := bite ++ map Audio.float64_of_int buffer).
  destruct (Z.gtb_spec (Z.of_nat (length l)) 4410) as [Hgt | Hle].
  - f_equal. lia.
  - replace (length l - 4410)%nat with 0%nat by lia. reflexivity.
Qed.

Lemma intakes_lastn (blocks : list (list Z)) (bite : list float) :
  lastn 4410 (intakes bite blocks) =
  lastn 4410 (bite ++ map Audio.float64_of_int (concat blocks)).
Proof.
  unfold intakes. revert bite.
  induction blocks as [| b blocks IH]; intros bite; simpl.
  - rewrite app_nil_r. reflexivity.
  - rewrite IH, intake_lastn, lastn_lastn_app, map_app, app_assoc. reflexivity.
Qed.

Lemma intakes_length (blocks : list (list Z)) (bite : list float) :
  (length bite <= 4410)%nat -> (length (intakes bite blocks) <= 4410)%nat.
Proof.
  unfold intakes. revert bite.
  induction blocks as [| b blocks IH]; intros bite Hb; simpl; [exact Hb |].
  apply IH. pose proof (intake_length bite b) as H.
  unfold len, Audio.maxSignalLength in H. lia.
Qed.

(** X4.  Starting from the empty window, after any sequence of blocks the
    rolling window holds the most recent samples received, converted to
    float64 and in order: the last 4410 of them, which is all of them while
    there are at most 4410.  It never holds more than 4410. *)
Theorem window_holds_most_recent_samples (blocks : list (list Z)) :
  intakes [] blocks = lastn 4410 (map Audio.float64_of_int (concat blocks)) /\
  length (intakes [] blocks) = Nat.min (length (concat blocks)) 4410 /\
  ((length (concat blocks) <= 4410)%nat ->
   intakes [] blocks = map Audio.float64_of_int (concat blocks)).
Proof.
  assert (H : intakes [] blocks =
              lastn 4410 (map Audio.float64_of_int (concat blocks))).
  { rewrite <- (lastn_all 4410 (intakes [] blocks)).
    - apply (intakes_lastn blocks []).
    - apply intakes_length. simpl. lia. }
  split; [exact H |]. split.
  - rewrite H, lastn_length, length_map. reflexivity.
  - intros Hle. rewrite H. apply lastn_all. rewrite length_map. exact Hle.
Qed.

Lemma window_holds_most_recent_samples_witness :
  (length (concat [[1; 2]; [3]]) <= 4410)%nat /\
  intakes [] [[1; 2]; [3]] = [1%float; 2%float; 3%float].
Proof.
  assert (Hle : (length (concat [[1; 2]; [3]]) <= 4410)%nat) by (simpl; lia).
  split; [exact Hle |].
  destruct (window_holds_most_recent_samples [[1; 2]; [3]]) as (_ & _ & H).
  exact (H Hle).
Defined.

Lemma silent_samples (samples : list Z) :
  Forall (fun sample => sample = 0) samples ->
  map Audio.float64_of_int samples = replicate (length samples) 0%float.
Proof.
  induction 1 as [| x l Hx _ IH]; [reflexivity |].
  simpl. rewrite IH, Hx. reflexivity.
Qed.

Lemma silence_concat (blocks : list (list Z)) :
  silence blocks -> Forall (fun sample => sample = 0) (concat blocks).
Proof.
  induction 1 as [| b blocks Hb _ IH]; simpl; [constructor |].
  apply Forall_app. split; assumption.
Qed.

(** X5.  When every sample read so far is zero (and at least one was read),
    the window's loudness is -Inf and the tick sends no Detection, whatever
    the threshold, the interval and the state of the detector. *)
Theorem silent_stream_never_triggers (Log10 : float -> float)
    (clock : nat -> GoTime.Time) (thr : float) (d : GoTime.Duration)
    (s : Audio.Ticker) (sampled : bool) (blocks : list (list Z)) :
  silence blocks -> concat blocks <> [] ->
  Audio.calculateRMS (intakes [] blocks) = 0%float /\
  Audio.calculateDecibels Log10 (intakes [] blocks) = neg_infinity /\
  Audio.detections
    (snd (Audio.tick Log10 clock thr d s
            {| Audio.bite := intakes [] blocks; Audio.sampled := sampled |}))
    = [] /\
  fst (Audio.tick Log10 clock thr d s
         {| Audio.bite := intakes [] blocks; Audio.sampled := sampled |}) = s.
Proof.
  intros Hsil Hne.
  assert (Hrms : Audio.calculateRMS (intakes [] blocks) = 0%float).
  { assert (Hw : intakes [] blocks =
                 lastn 4410 (map Audio.float64_of_int (concat blocks))).
    { rewrite <- (lastn_all 4410 (intakes [] blocks)).
      - apply (intakes_lastn blocks []).
      - apply intakes_length. simpl. lia. }
    rewrite Hw, (silent_samples _ (silence_concat _ Hsil)).
    unfold lastn. rewrite drop_replicate, length_replicate.
    apply calculateRMS_silent.
    destruct (concat blocks); [contradiction | simpl; lia]. }
  assert (Hdb : Audio.calculateDecibels Log10 (intakes [] blocks) = neg_infinity).
  { unfold Audio.calculateDecibels. rewrite Hrms. reflexivity. }
  assert (Hlt : PrimFloat.ltb thr
                  (Audio.calculateDecibels Log10
                     (Audio.bite {| Audio.bite := intakes [] blocks;
                                    Audio.sampled := sampled |})) = false).
  { simpl. rewrite Hdb. apply ltb_neg_infinity_r. }
  rewrite (tick_quiet Log10 clock thr d s _ Hlt). simpl.
  repeat split; try assumption. apply detections_logged_only.
Qed.

Lemma silent_stream_never_triggers_witness :
  silence [[0; 0]; [0]] /\ concat [[0; 0]; [0]] <> [] /\
  Audio.calculateDecibels (Audio.Log10_of (fun _ => 4%float))
    (intakes [] [[0; 0]; [0]]) = neg_infinity.
Proof.
  assert (H1 : silence [[0; 0]; [0]]) by (repeat constructor).
  assert (H2 : concat [[0; 0]; [0]] <> []) by discriminate.
  split; [exact H1 |]. split; [exact H2 |].
  destruct (silent_stream_never_triggers (Audio.Log10_of (fun _ => 4%float))
              tenth_of_second_clock 75%float Audio.DefaultMinDetectionInterval
              Audio.start false [[0; 0]; [0]] H1 H2) as (_ & H & _).
  exact H.
Defined.

(** ** Runs of the detector *)

(** X6.  A run of ticks none of which is above the threshold sends no
    Detection, never reads the clock and leaves [lastDetection] as it was:
    the detector is after it in the state it started in. *)
Theorem quiet_run_changes_nothing (Log10 : float -> float)
    (clock : nat -> GoTime.Time) (thr : float) (d : GoTime.Duration)
    (s : Audio.Ticker) (ticks : list Audio.Tick) :
  all_below Log10 thr ticks ->
  Forall (fun r => fst r = s /\ Audio.detections (snd r) = [])
    (Audio.run Log10 clock thr d s ticks) /\
  length (Audio.run Log10 clock thr d s ticks) = length ticks.
Proof.
  intros Hall. induction Hall as [| t ticks Ht _ IH]; simpl.
  - split; [constructor | reflexivity].
  - destruct (tick_below Log10 clock thr d s t Ht) as (Hs & Hd).
    rewrite Hs. destruct IH as (IH1 & IH2). split.
    + constructor; [split; assumption | exact IH1].
    + rewrite IH2. reflexivity.
Qed.

Lemma quiet_run_changes_nothing_witness :
  all_below (Audio.Log10_of (fun _ => 4%float)) 90%float [loud; loud] /\
  Forall (fun r => fst r = Audio.start /\ Audio.detections (snd r) = [])
    (Audio.run (Audio.Log10_of (fun _ => 4%float)) tenth_of_second_clock
       90%float Audio.DefaultMinDetectionInterval Audio.start [loud; loud]).
Proof.
  assert (H : all_below (Audio.Log10_of (fun _ => 4%float)) 90%float
                [loud; loud]).
  { repeat constructor; vm_compute; reflexivity. }
  split; [exact H |].
  destruct (quiet_run_changes_nothing (Audio.Log10_of (fun _ => 4%float))
              tenth_of_second_clock 90%float Audio.DefaultMinDetectionInterval
              Audio.start [loud; loud] H) as (Hrun & _).
  exact Hrun.
Defined.

(** X7.  A burst: when the first tick is above the threshold and more than
    the interval after [lastDetection], and every reading of the clock
    during the run lies within one interval of every other, the first tick
    sends one Detection and no later tick sends any, however loud. *)
Theorem burst_sends_exactly_one (Log10 : float -> float)
    (clock : nat -> GoTime.Time) (thr : float) (d : GoTime.Duration)
    (s : Audio.Ticker) (t : Audio.Tick) (ticks : list Audio.Tick) :
  monotone clock -> GoTime.is_Duration d ->
  (forall a b, clock b - clock a <= d) ->
  PrimFloat.ltb thr (Audio.calculateDecibels Log10 (Audio.bite t)) = true ->
  Audio.lastDetection s < clock (Audio.nowCalls s) + GoTime.wrap64 (- d) ->
  (exists det,
     Audio.detections (snd (Audio.tick Log10 clock thr d s t)) = [det] /\
     PrimFloat.ltb thr (Audio.Decibel det) = true) /\
  Forall (fun r => Audio.detections (snd r) = [])
    (Audio.run Log10 clock thr d (fst (Audio.tick Log10 clock thr d s t)) ticks).
Proof.
  intros Hm Hd Hwin Hloud Hgap.
  destruct (tick_detections Log10 clock thr d s t) as (Hsent & _).
  rewrite Hloud in Hsent. simpl in Hsent.
  apply Z.ltb_lt in Hgap. rewrite Hgap in Hsent.
  split.
  - eexists. split; [exact Hsent |]. simpl. exact Hloud.
  - apply Forall_forall. intros r Hr.
    apply list_elem_of_lookup in Hr. destruct Hr as (j & Hj).
    destruct (Audio.detections (snd r)) as [| dj rest] eqn:Hdj; [reflexivity |].
    exfalso. destruct r as [sj evj]. simpl in Hdj.
    assert (H0 : Audio.run Log10 clock thr d s (t :: ticks) !! 0%nat =
                 Some (Audio.tick Log10 clock thr d s t)) by reflexivity.
    assert (HS : Audio.run Log10 clock thr d s (t :: ticks) !! S j =
                 Some (sj, evj)) by exact Hj.
    destruct (Audio.tick Log10 clock thr d s t) as [s1 ev1] eqn:Ht.
    simpl in Hsent.
    assert (Hin1 : In {| Audio.Decibel :=
                           Audio.calculateDecibels Log10 (Audio.bite t);
                         Audio.DetectionTime :=
                           clock (S (S (Audio.nowCalls s))) |}
                     (Audio.detections ev1)) by (rewrite Hsent; left; reflexivity).
    assert (Hinj : In dj (Audio.detections evj)) by (rewrite Hdj; left; reflexivity).
    destruct (run_two_detections Log10 clock thr d (t :: ticks) Hm Hd s
                0%nat (S j) s1 sj ev1 evj _ dj ltac:(lia) H0 Hin1 HS Hinj)
      as (Hfar & _).
    destruct (run_detection_stamp Log10 clock thr d (t :: ticks) s
                0%nat s1 ev1 _ H0 Hin1) as (c1 & Hc1).
    destruct (run_detection_stamp Log10 clock thr d (t :: ticks) s
                (S j) sj evj dj HS Hinj) as (cj & Hcj).
    pose proof (Hwin c1 cj). lia.
Qed.

Lemma burst_sends_exactly_one_witness :
  monotone burst_clock /\
  (forall a b, burst_clock b - burst_clock a
               <= Audio.DefaultMinDetectionInterval) /\
  (exists det,
     Audio.detections
       (snd (Audio.tick (Audio.Log10_of (fun _ => 4%float)) burst_clock
               75%float Audio.DefaultMinDetectionInterval Audio.start loud))
     = [det]) /\
  Forall (fun r => Audio.detections (snd r) = [])
    (Audio.run (Audio.Log10_of (fun _ => 4%float)) burst_clock 75%float
       Audio.DefaultMinDetectionInterval
       (fst (Audio.tick (Audio.Log10_of (fun _ => 4%float)) burst_clock
               75%float Audio.DefaultMinDetectionInterval Audio.start loud))
       [loud; loud]).
Proof.
  assert (Hm : monotone burst_clock).
  { intros a b Hab. unfold burst_clock, GoTime.Second, GoTime.Millisecond. lia. }
  assert (Hw : forall a b, burst_clock b - burst_clock a
                           <= Audio.DefaultMinDetectionInterval).
  { intros a b.
    unfold burst_clock, Audio.DefaultMinDetectionInterval, GoTime.Second,
      GoTime.Millisecond. lia. }
  assert (Hd : GoTime.is_Duration Audio.DefaultMinDetectionInterval).
  { unfold GoTime.is_Duration. vm_compute. split; discriminate. }
  split; [exact Hm |]. split; [exact Hw |].
  destruct (burst_sends_exactly_one (Audio.Log10_of (fun _ => 4%float))
              burst_clock 75%float Audio.DefaultMinDetectionInterval
              Audio.start loud [loud; loud] Hm Hd Hw)
    as ((det & Hdet & _) & Hrest).
  - vm_compute. reflexivity.
  - vm_compute. reflexivity.
  - split; [exists det; exact Hdet | exact Hrest].
Defined.

(** ** What a playback shows *)

Lemma step1_plays_its_clip (files : Files) (stop_at : nat -> bool)
    (v : Playback.VideoPlayback) (speed : float) (r : Playback.Run) :
  plays_its_clip files v r ->
  plays_its_clip files v (Playback.step1 files stop_at v speed r).
Proof.
  unfold plays_its_clip, Playback.step1. destruct r as [pc c tr].
  cbn [Playback.pc Playback.trace Playback.selects]. intros (Hpc & Hshown).
  destruct pc as [| [| f rest] | f rest | f rest | rest |];
    cbn [Playback.step fst snd andb].
  - destruct (files (Playback.file v)) as [clip |] eqn:Hf; cbn [fst snd];
      rewrite shown_app; cbn [Playback.shown flat_map app]; rewrite app_nil_r;
      (split; [| exact Hshown]).
    + unfold clip_of. rewrite Hf. apply incl_refl.
    + exact I.
  - rewrite shown_app. cbn [Playback.shown flat_map app]. rewrite app_nil_r.
    split; [exact I | exact Hshown].
  - destruct (Empty f) eqn:He; cbn [fst snd]; rewrite app_nil_r;
      (split; [| exact Hshown]).
    + intros g Hg. apply Hpc. right. exact Hg.
    + split; [exact He |]. split; [apply Hpc; left; reflexivity |].
      intros g Hg. apply Hpc. right. exact Hg.
  - destruct (stop_at c); cbn [fst snd].
    + rewrite shown_app. cbn [Playback.shown flat_map app]. rewrite app_nil_r.
      split; [exact I | exact Hshown].
    + rewrite app_nil_r. split; [exact Hpc | exact Hshown].
  - destruct Hpc as (He & Hf & Hrest).
    rewrite shown_app. cbn [Playback.shown flat_map app].
    split; [exact Hrest |].
    apply Forall_app. split; [exact Hshown |].
    constructor; [| constructor]. split; [exact He | exact Hf].
  - rewrite shown_app. cbn [Playback.shown flat_map app]. rewrite app_nil_r.
    split; [exact Hpc | exact Hshown].
  - rewrite app_nil_r. split; [exact I | exact Hshown].
Qed.

(** X8.  Whatever the file holds and whenever a stop arrives, every frame a
    playback hands to the window is a non-empty frame of the file it was
    created for; a playback whose file does not open shows nothing. *)
Theorem playback_shows_only_frames_of_its_clip (files : Files)
    (stop_at : nat -> bool) (v : Playback.VideoPlayback) (speed : float)
    (n : nat) (f : Mat) :
  In f (Playback.shown
          (Playback.trace (Playback.exec files stop_at v speed n Playback.start))) ->
  Empty f = false /\
  exists clip, files (Playback.file v) = Some clip /\ In f clip.
Proof.
  assert (Hinv : forall r, plays_its_clip files v r ->
                 plays_its_clip files v (Playback.exec files stop_at v speed n r)).
  { induction n as [| n IH]; intros r Hr; [exact Hr |].
    simpl. apply IH, step1_plays_its_clip, Hr. }
  intros Hin.
  destruct (Hinv Playback.start) as (_ & Hshown).
  { split; [exact I | constructor]. }
  rewrite Forall_forall in Hshown.
  destruct (Hshown f (proj2 (list_elem_of_In _ _) Hin)) as (He & Hclip).
  split; [exact He |]. unfold clip_of in Hclip.
  destruct (files (Playback.file v)) as [clip |]; [| contradiction].
  exists clip. split; [reflexivity | exact Hclip].
Qed.

Lemma playback_shows_only_frames_of_its_clip_witness :
  In (MatData 2 false)
    (Playback.shown
       (Playback.trace
          (Playback.exec disk (fun _ => false) front_playback
             Playback.DefaultPlaybackSpeed 14 Playback.start))) /\
  exists clip, disk (Playback.file front_playback) = Some clip /\
               In (MatData 2 false) clip.
Proof.
  assert (H : In (MatData 2 false)
                (Playback.shown
                   (Playback.trace
                      (Playback.exec disk (fun _ => false) front_playback
                         Playback.DefaultPlaybackSpeed 14 Playback.start)))).
  { vm_compute. tauto. }
  split; [exact H |].
  apply (playback_shows_only_frames_of_its_clip disk (fun _ => false)
           front_playback Playback.DefaultPlaybackSpeed 14 (MatData 2 false) H).
Defined.

Lemma step1_spinning (files : Files) (stop_at : nat -> bool)
    (v : Playback.VideoPlayback) (speed : float) (clip : list Mat)
    (r : Playback.Run) :
  files (Playback.file v) = Some clip -> Playback.playable clip = [] ->
  spinning r -> spinning (Playback.step1 files stop_at v speed r).
Proof.
  intros Hopen Hnone. unfold spinning, Playback.step1.
  destruct r as [pc c tr]. simpl.
  intros ([-> | (rest & -> & Hrest)] & -> & Hshown); simpl.
  - rewrite Hopen. simpl. rewrite shown_app, Hshown.
    split; [right; exists clip; split; [reflexivity | exact Hnone] |].
    split; reflexivity.
  - destruct rest as [| f rest]; simpl.
    + rewrite shown_app, Hshown. split; [left; reflexivity |]. split; reflexivity.
    + unfold Playback.playable in Hrest. simpl in Hrest.
      destruct (Empty f) eqn:He; simpl in Hrest; [| discriminate].
      simpl. rewrite app_nil_r.
      split; [right; exists rest; split; [reflexivity | exact Hrest] |].
      split; [reflexivity | exact Hshown].
Qed.

(** X9.  A playback of a clip that holds no non-empty frame (an empty file
    included) never reaches its [select]: whether or not a stop is waiting,
    it never returns, shows nothing, and only rereads and reopens the
    file. *)
Theorem unplayable_clip_is_never_stopped (files : Files)
    (stop_at : nat -> bool) (v : Playback.VideoPlayback) (speed : float)
    (clip : list Mat) (n : nat) :
  files (Playback.file v) = Some clip -> Playback.playable clip = [] ->
  Playback.pc (Playback.exec files stop_at v speed n Playback.start)
    <> Playback.Returned /\
  Playback.selects (Playback.exec files stop_at v speed n Playback.start)
    = 0%nat /\
  Playback.shown
    (Playback.trace (Playback.exec files stop_at v speed n Playback.start)) = [].
Proof.
  intros Hopen Hnone.
  assert (Hinv : forall r, spinning r ->
                 spinning (Playback.exec files stop_at v speed n r)).
  { induction n as [| n IH]; intros r Hr; [exact Hr |].
    simpl. apply IH, (step1_spinning files stop_at v speed clip r Hopen Hnone Hr). }
  destruct (Hinv Playback.start) as (Hpc & Hsel & Hshown).
  { split; [left; reflexivity | split; reflexivity]. }
  split; [| split; assumption].
  destruct Hpc as [-> | (rest & -> & _)]; discriminate.
Qed.

Lemma unplayable_clip_is_never_stopped_witness :
  write_file no_files "videos/2024-01-02 03-04-05 front.avi"
    [MatData 1 true] (Playback.file front_playback) = Some [MatData 1 true] /\
  Playback.playable [MatData 1 true] = [] /\
  Playback.pc
    (Playback.exec
       (write_file no_files "videos/2024-01-02 03-04-05 front.avi"
          [MatData 1 true])
       (fun _ => true) front_playback Playback.DefaultPlaybackSpeed 100
       Playback.start) <> Playback.Returned.
Proof.
  split; [reflexivity |]. split; [reflexivity |].
  apply (unplayable_clip_is_never_stopped
           (write_file no_files "videos/2024-01-02 03-04-05 front.avi"
              [MatData 1 true])
           (fun _ => true) front_playback Playback.DefaultPlaybackSpeed
           [MatData 1 true] 100); reflexivity.
Defined.

(** ** The capture loop and its playbacks *)

Lemma step_blocked_in_Stop (v : Capture.VideoProfile) (p : nat)
    (s s' : Capture.System) :
  blocked_in_Stop p s -> Capture.step v s s' ->
  blocked_in_Stop p s' /\
  Capture.frameBuffer s' = Capture.frameBuffer s /\
  Capture.files s' = Capture.files s.
Proof.
  intros (Hloop & pv & Hp) Hstep.
  inversion Hstep; subst; try congruence.
  (* what is left is a step of a playback, and not of the one that returned *)
  destruct (decide (p0 = p)) as [-> | Hne]; [congruence |].
  split; [| split; reflexivity].
  split; [exact Hloop |]. exists pv. cbn.
  rewrite list_lookup_insert_ne by exact Hne. exact Hp.
Qed.

(** X10.  Once the capture loop calls [Stop] on a playback that has already
    returned, nobody receives on that stop channel: in every state that
    follows the loop is still inside that call, no frame has been appended
    to the buffer and no clip has been written. *)
Theorem Stop_on_returned_playback_blocks_forever (v : Capture.VideoProfile)
    (p : nat) (s s' : Capture.System) :
  blocked_in_Stop p s -> Capture.reachable v s s' ->
  blocked_in_Stop p s' /\
  Capture.frameBuffer s' = Capture.frameBuffer s /\
  Capture.files s' = Capture.files s.
Proof.
  intros Hb Hreach. induction Hreach as [| s1 s2 _ IH Hstep].
  - split; [exact Hb | split; reflexivity].
  - destruct IH as (Hb1 & Hfb & Hfiles).
    destruct (step_blocked_in_Stop v p s1 s2 Hb1 Hstep) as (Hb2 & Hfb2 & Hfiles2).
    split; [exact Hb2 |]. split; congruence.
Qed.

(** A save whose writer cannot be opened, after the playback was stopped,
    leaves [playback] pointing at the stopped playback: the next save signal
    blocks the loop for good. *)
Lemma Stop_on_returned_playback_blocks_forever_witness :
  exists s,
    Capture.reachable front (Capture.initial full_buffer no_files) s /\
    blocked_in_Stop 0 s /\
    forall s', Capture.reachable front s s' ->
               Capture.loop s' = Capture.LStopPlayback 0 /\
               Capture.frameBuffer s' = full_buffer.
Proof.
  pose proof (Capture.reach_start front (Capture.initial full_buffer no_files)) as H.
  eapply Capture.reach_step in H;
    [| eapply Capture.step_save_idle; reflexivity ].
  buffer_saved H.
  do 2 playback_moves H 0%nat.
  eapply Capture.reach_step in H;
    [| eapply (Capture.step_save_playing _ _ 0%nat); reflexivity ].
  evaluate_state H.
  eapply Capture.reach_step in H;
    [| eapply (Capture.step_stop_received _ _ 0%nat); reflexivity ].
  evaluate_state H.
  eapply Capture.reach_step in H;
    [| eapply (Capture.step_save_failed front _ broken_writer an_instant
                 1280 720 120%float);
       [reflexivity | vm_compute; reflexivity] ].
  evaluate_state H.
  eapply Capture.reach_step in H;
    [| eapply (Capture.step_save_playing _ _ 0%nat); reflexivity ].
  evaluate_state H.
  eexists. split; [exact H |].
  match goal with
  | |- blocked_in_Stop 0 ?s /\ _ =>
      assert (Hb : blocked_in_Stop 0 s)
        by (split; [reflexivity | eexists; reflexivity])
  end.
  split; [exact Hb |].
  intros s' Hs'.
  destruct (Stop_on_returned_playback_blocks_forever front 0 _ s' Hb Hs')
    as ((Hloop & _) & Hfb & _).
  split; [exact Hloop | exact Hfb].
Defined.

Lemma stored_keeps (files : Files) (file : string)
    (evs : list Buffer.Event) (name : string) :
  (exists clip, files name = Some clip) ->
  exists clip, Capture.stored files file evs name = Some clip.
Proof.
  intros Hex. unfold Capture.stored, write_file.
  destruct (existsb _ evs); [| exact Hex].
  destruct (String.eqb name file); [eexists; reflexivity | exact Hex].
Qed.

Lemma Save_nil_stores (w : Buffer.VideoWriter) (b : Buffer.VideoFrameBuffer)
    (files : Files) (file : string) (width height : Z) (fps : float)
    (evs : list Buffer.Event) :
  Buffer.Save w b file width height fps = (None, evs) ->
  Capture.stored files file evs file = Some (Buffer.written evs).
Proof.
  unfold Buffer.Save. destruct (negb (Buffer.Full b)); [discriminate |].
  destruct (Buffer.open_err w file); [discriminate |].
  destruct (Buffer.write_frames w 0 (Buffer.frames b)) as [r wevs].
  intros Heq. injection Heq as -> <-.
  unfold Capture.stored. cbn [app existsb orb].
  unfold write_file. rewrite String.eqb_refl. reflexivity.
Qed.

Lemma logged_keeps (evs : list Capture.Event) (s : Capture.System)
    (e : Capture.Event) :
  In e (Capture.log s) -> In e (Capture.log (Capture.logged evs s)).
Proof.
  intros Hin. cbn. apply in_or_app. right. exact Hin.
Qed.

Lemma step_ends_by_Stop (v : Capture.VideoProfile) (s s' : Capture.System) :
  ends_by_Stop s -> Capture.step v s s' -> ends_by_Stop s'.
Proof.
  intros Hinv Hstep.
  inversion Hstep; subst; intros q qv qc Hq;
    cbn [Capture.playbacks Capture.logged] in Hq;
    cbn [Capture.files Capture.log Capture.logged].
  - destruct (Hinv q qv qc Hq) as (Hclip & Hret).
    split; [exact Hclip |]. intros Hr.
    apply in_or_app. right. exact (Hret Hr).
  - destruct (Hinv q qv qc Hq) as (Hclip & Hret).
    split; [exact Hclip |]. intros Hr.
    apply in_or_app. right. exact (Hret Hr).
  - exact (Hinv q qv qc Hq).
  - destruct (decide (q = p)) as [-> | Hne].
    + rewrite list_lookup_insert_eq in Hq
        by (apply lookup_lt_Some in H0; exact H0).
      injection Hq as <- <-.
      split; [apply (Hinv p pv _ H0) |].
      intros _. apply in_or_app. left. rewrite rev_app_distr.
      left. reflexivity.
    + rewrite list_lookup_insert_ne in Hq by congruence.
      destruct (Hinv q qv qc Hq) as (Hclip & Hret).
      split; [exact Hclip |]. intros Hr.
      apply in_or_app. right. exact (Hret Hr).
  - destruct (Hinv q qv qc Hq) as (Hclip & Hret).
    split; [apply stored_keeps; exact Hclip |].
    intros Hr. apply in_or_app. right. exact (Hret Hr).
  - apply lookup_app_Some in Hq. destruct Hq as [Hq | (Hlen & Hq)].
    + destruct (Hinv q qv qc Hq) as (Hclip & Hret).
      split; [apply stored_keeps; exact Hclip |].
      intros Hr. apply in_or_app. right. exact (Hret Hr).
    + destruct (q - length (Capture.playbacks s))%nat; [| discriminate].
      injection Hq as <- <-.
      split; [| discriminate].
      eexists. cbn [Playback.file Playback.NewVideoPlayback].
      eapply Save_nil_stores. eassumption.
  - exact (Hinv q qv qc Hq).
  - destruct (Hinv q qv qc Hq) as (Hclip & Hret).
    split; [exact Hclip |]. intros Hr.
    apply in_or_app. right. exact (Hret Hr).
  - destruct (decide (q = p)) as [-> | Hne].
    + rewrite list_lookup_insert_eq in Hq
        by (apply lookup_lt_Some in H; exact H).
      injection Hq as <- <-.
      destruct (Hinv p pv pc H) as ((clip & Hclip) & _).
      split; [exists clip; exact Hclip |].
      intros Hr. exfalso. subst next.
      destruct pc as [| [| f rest] | f rest | f rest | rest |];
        cbn in Hr; try discriminate.
      * rewrite Hclip in Hr. discriminate.
      * destruct (Empty f); discriminate.
      * apply H0. reflexivity.
    + rewrite list_lookup_insert_ne in Hq by congruence.
      destruct (Hinv q qv qc Hq) as (Hclip & Hret).
      split; [exact Hclip |]. intros Hr.
      apply in_or_app. right. exact (Hret Hr).
Qed.

(** X11.  In every state a capture stream can reach, the clip of each
    playback it started is on disk (a clip once written stays openable),
    so no playback ends on a failed open: a playback that has returned was
    stopped by the loop's [Stop]. *)
Theorem playback_returns_only_when_stopped (v : Capture.VideoProfile)
    (b : Buffer.VideoFrameBuffer) (files0 : Files) (s : Capture.System)
    (p : nat) (pv : Playback.VideoPlayback) (pc : Playback.PC) :
  Capture.reachable v (Capture.initial b files0) s ->
  Capture.playbacks s !! p = Some (pv, pc) ->
  (exists clip, Capture.files s (Playback.file pv) = Some clip) /\
  (pc = Playback.Returned -> In (Capture.EvStopped p) (Capture.log s)).
Proof.
  intros Hreach. revert p pv pc.
  change (ends_by_Stop s).
  induction Hreach as [| s1 s2 _ IH Hstep].
  - intros p pv pc Hp. discriminate.
  - exact (step_ends_by_Stop v s1 s2 IH Hstep).
Qed.

Lemma playback_returns_only_when_stopped_witness :
  exists s,
    Capture.reachable front (Capture.initial full_buffer no_files) s /\
    Capture.playbacks s !! 0%nat = Some (front_playback, Playback.Returned) /\
    In (Capture.EvStopped 0) (Capture.log s).
Proof.
  pose proof (Capture.reach_start front (Capture.initial full_buffer no_files)) as H.
  eapply Capture.reach_step in H;
    [| eapply Capture.step_save_idle; reflexivity ].
  buffer_saved H.
  do 2 playback_moves H 0%nat.
  eapply Capture.reach_step in H;
    [| eapply (Capture.step_save_playing _ _ 0%nat); reflexivity ].
  evaluate_state H.
  eapply Capture.reach_step in H;
    [| eapply (Capture.step_stop_received _ _ 0%nat); reflexivity ].
  evaluate_state H.
  eexists. split; [exact H |].
  split; [reflexivity |].
  apply (playback_returns_only_when_stopped front full_buffer no_files _
           0%nat front_playback Playback.Returned H); reflexivity.
Defined.

(** ** Clip file names *)

Lemma digit_value_digit (n : Z) : digit_value (Clip.digit n) = n mod 10.
Proof.
  unfold Clip.digit. pose proof (Z.mod_pos_bound n 10 ltac:(lia)) as Hb.
  assert (Hall : forallb
            (fun k => digit_value (ascii_of_nat (48 + k)) =? Z.of_nat k)
            (seq 0 10) = true) by reflexivity.
  rewrite forallb_forall in Hall.
  specialize (Hall (Z.to_nat (n mod 10))).
  rewrite Z.eqb_eq, Z2Nat.id in Hall by lia.
  apply Hall, in_seq. lia.
Qed.

Lemma appendInt_two_number (x : Z) :
  0 <= x <= 99 ->
  String.length (Clip.appendInt x 2) = 2%nat /\
  number 0 (Clip.appendInt x 2) = x.
Proof.
  intros Hx.
  assert (Hall : forallb
            (fun k => (String.length (Clip.appendInt (Z.of_nat k) 2) =? 2)%nat
                      && (number 0 (Clip.appendInt (Z.of_nat k) 2) =? Z.of_nat k))
            (seq 0 100) = true) by (vm_compute; reflexivity).
  rewrite forallb_forall in Hall.
  specialize (Hall (Z.to_nat x)).
  rewrite Z2Nat.id in Hall by lia.
  destruct (andb_prop _ _ (Hall ltac:(apply in_seq; lia))) as [Hl Hn].
  split; [apply Nat.eqb_eq, Hl | apply Z.eqb_eq, Hn].
Qed.

Lemma appendInt_four_number (x : Z) :
  0 <= x <= 9999 ->
  String.length (Clip.appendInt x 4) = 4%nat /\
  number 0 (Clip.appendInt x 4) = x.
Proof.
  intros Hx. unfold Clip.appendInt. rewrite Z.abs_eq by lia.
  destruct (Z.ltb_spec x 0) as [| _]; [lia |].
  cbn [Clip.utoa].
  destruct (Z.ltb_spec x 10) as [| H1];
    [| destruct (Z.ltb_spec (x / 10) 10) as [| H2];
       [| destruct (Z.ltb_spec (x / 10 / 10) 10) as [| H3];
          [| destruct (Z.ltb_spec (x / 10 / 10 / 10) 10) as [| H4]]]];
    cbn [String.length Nat.sub Clip.zeros String.append number];
    rewrite ?digit_value_digit;
    change (digit_value "0") with 0;
    try (split; [reflexivity | Z.div_mod_to_equations; lia]).
  exfalso. revert H4. Z.div_mod_to_equations. lia.
Qed.

Lemma string_app_length (a b : string) :
  String.length (a ++ b)%string = (String.length a + String.length b)%nat.
Proof.
  induction a as [| c a IH]; [reflexivity |]. simpl. rewrite IH. reflexivity.
Qed.

Lemma string_app_inj (a a' b b' : string) :
  String.length a = String.length a' ->
  (a ++ b)%string = (a' ++ b')%string -> a = a' /\ b = b'.
Proof.
  revert a'. induction a as [| c a IH]; intros [| c' a'] Hlen Heq;
    try discriminate.
  - split; [reflexivity | exact Heq].
  - simpl in Hlen, Heq. injection Hlen as Hlen. injection Heq as -> Heq.
    destruct (IH a' Hlen Heq) as [-> ->]. split; reflexivity.
Qed.

Lemma string_app_inj_r (a a' b : string) :
  (a ++ b)%string = (a' ++ b)%string -> a = a'.
Proof.
  intros Heq. apply (string_app_inj a a' b b); [| exact Heq].
  apply (f_equal String.length) in Heq.
  rewrite !string_app_length in Heq. lia.
Qed.

Lemma appendInt_two_inj (x y : Z) (b b' : string) :
  0 <= x <= 99 -> 0 <= y <= 99 ->
  (Clip.appendInt x 2 ++ b)%string = (Clip.appendInt y 2 ++ b')%string ->
  x = y /\ b = b'.
Proof.
  intros Hx Hy Heq.
  destruct (appendInt_two_number x Hx) as [Hlx Hnx].
  destruct (appendInt_two_number y Hy) as [Hly Hny].
  destruct (string_app_inj _ _ _ _ (eq_trans Hlx (eq_sym Hly)) Heq) as [Ha Hb].
  split; [| exact Hb]. rewrite <- Hnx, <- Hny, Ha. reflexivity.
Qed.

Lemma appendInt_four_inj (x y : Z) (b b' : string) :
  0 <= x <= 9999 -> 0 <= y <= 9999 ->
  (Clip.appendInt x 4 ++ b)%string = (Clip.appendInt y 4 ++ b')%string ->
  x = y /\ b = b'.
Proof.
  intros Hx Hy Heq.
  destruct (appendInt_four_number x Hx) as [Hlx Hnx].
  destruct (appendInt_four_number y Hy) as [Hly Hny].
  destruct (string_app_inj _ _ _ _ (eq_trans Hlx (eq_sym Hly)) Heq) as [Ha Hb].
  split; [| exact Hb]. rewrite <- Hnx, <- Hny, Ha. reflexivity.
Qed.

Lemma string_app_assoc (a b c : string) :
  ((a ++ b) ++ c)%string = (a ++ (b ++ c))%string.
Proof.
  induction a as [| x a IH]; [reflexivity |]. simpl. rewrite IH. reflexivity.
Qed.

Lemma Format_inj (t t' : Clip.Civil) (b b' : string) :
  Clip.valid t -> Clip.valid t' ->
  (Clip.Format t ++ b)%string = (Clip.Format t' ++ b')%string ->
  t = t' /\ b = b'.
Proof.
  intros (Hy & Hmo & Hd & Hh & Hmi & Hs) (Hy' & Hmo' & Hd' & Hh' & Hmi' & Hs').
  destruct t as [y mo d h mi s], t' as [y' mo' d' h' mi' s'].
  cbn [Clip.year Clip.month Clip.day Clip.hour Clip.minute Clip.second] in *.
  unfold Clip.Format.
  cbn [Clip.year Clip.month Clip.day Clip.hour Clip.minute Clip.second].
  rewrite !string_app_assoc. intros Heq.
  apply appendInt_four_inj in Heq as [-> Heq]; [| lia | lia].
  injection Heq as Heq.
  apply appendInt_two_inj in Heq as [-> Heq]; [| lia | lia].
  injection Heq as Heq.
  apply appendInt_two_inj in Heq as [-> Heq]; [| lia | lia].
  injection Heq as Heq.
  apply appendInt_two_inj in Heq as [-> Heq]; [| lia | lia].
  injection Heq as Heq.
  apply appendInt_two_inj in Heq as [-> Heq]; [| lia | lia].
  injection Heq as Heq.
  apply appendInt_two_inj in Heq as [-> Heq]; [| lia | lia].
  split; [reflexivity | exact Heq].
Qed.

(** X12.  The clip file name determines the stream and the clock second of
    the save: two saves write to the same file only when they are saves of
    the same stream within the same second (for times with a four-digit
    year). *)
Theorem clip_file_determines_stream_and_second (name name' : string)
    (t t' : Clip.Civil) :
  Clip.valid t -> Clip.valid t' ->
  Clip.clipFile name t = Clip.clipFile name' t' ->
  name = name' /\ t = t'.
Proof.
  intros Hv Hv' Heq. unfold Clip.clipFile in Heq.
  injection Heq as Heq.
  apply Format_inj in Heq as [-> Heq]; [| assumption | assumption].
  injection Heq as Heq.
  apply string_app_inj_r in Heq. split; [exact Heq | reflexivity].
Qed.

Lemma clip_file_determines_stream_and_second_witness :
  Clip.valid an_instant /\
  Clip.clipFile "front" an_instant = "videos/2024-01-02 03-04-05 front.avi" /\
  ("front" = "front" /\ an_instant = an_instant) /\
  forall name t,
    Clip.valid t ->
    Clip.clipFile name t = "videos/2024-01-02 03-04-05 front.avi" ->
    name = "front" /\ t = an_instant.
Proof.
  assert (Hv : Clip.valid an_instant) by (vm_compute; intuition discriminate).
  split; [exact Hv |]. split; [reflexivity |]. split.
  - apply (clip_file_determines_stream_and_second "front" "front"
             an_instant an_instant Hv Hv). reflexivity.
  - intros name t Hvt Heq.
    apply (clip_file_determines_stream_and_second name "front" t an_instant
             Hvt Hv Heq).
Defined.

(** ** The first revision of the detector *)

Lemma first_detections_app (a b : list FirstAudio.Event) :
  FirstAudio.detections (a ++ b)
  = FirstAudio.detections a ++ FirstAudio.detections b.
Proof.
  unfold FirstAudio.detections. rewrite !flat_map_concat_map, map_app.
  apply concat_app.
Qed.

(** X13.  The first revision of [StartDetection] has no re-trigger
    interval: it sends one time stamp for every tick whose window is above
    the threshold and none for the others, and the stamps are consecutive
    readings of the clock, in order; a signal that stays above the
    threshold therefore sends on every tick. *)
Theorem first_revision_sends_on_every_loud_tick (Log10 : float -> float)
    (clock : nat -> GoTime.Time) (thr : float) (n : nat)
    (bites : list (list float)) :
  FirstAudio.detections (FirstAudio.run Log10 clock thr n bites)
  = map clock (seq n (length (above Log10 thr bites))).
Proof.
  revert n. induction bites as [| bite rest IH]; intros n; [reflexivity |].
  cbn [FirstAudio.run]. rewrite first_detections_app.
  unfold above in *. cbn [List.filter]. unfold FirstAudio.tick.
  destruct (PrimFloat.ltb thr (Audio.calculateDecibels Log10 bite));
    cbn [fst snd]; rewrite IH; reflexivity.
Qed.

(** ** [VideoProfile.Save] outside the range of a Duration *)

Lemma wrap64_above (z : Z) :
  GoTime.maxDuration < z <= GoTime.maxDuration + 2 ^ 64 ->
  GoTime.wrap64 z = z - 2 ^ 64.
Proof.
  unfold GoTime.wrap64, GoTime.maxDuration.
  change (2 ^ 63) with 9223372036854775808.
  change (2 ^ 64) with 18446744073709551616.
  intros H.
  replace (z + 9223372036854775808)
    with ((z - 9223372036854775808) + 1 * 18446744073709551616) by lia.
  rewrite Z_mod_plus_full, Z.mod_small by lia. lia.
Qed.

(** X14.  For a capture window between 0 and the largest Duration, [Save]
    reaches its send for every clock reading and every Detection stamp, the
    zero [Time] and stamps more than 292 years away included (where
    [time.Since] saturates and the subtraction can wrap around): the send
    happens no earlier than the call and no later than the end of the
    window after the Detection, and exactly at the later of the two unless
    the stamp lies so far ahead of the clock that the delay leaves the
    range of a Duration. *)
Theorem Save_sends_by_the_end_of_the_window (v : Capture.VideoProfile)
    (now : GoTime.Time) (detection : Audio.Detection) :
  0 <= Capture.durationToCaptureAfterEvent v <= GoTime.maxDuration ->
  exists t,
    Capture.send_time now (Capture.Save v now detection) = Some t /\
    now <= t <=
      Z.max now (Audio.DetectionTime detection
                 + Capture.durationToCaptureAfterEvent v) /\
    (Audio.DetectionTime detection - now
       <= GoTime.maxDuration - Capture.durationToCaptureAfterEvent v ->
     t = Z.max now (Audio.DetectionTime detection
                    + Capture.durationToCaptureAfterEvent v)).
Proof.
  intros HD. eexists. split; [reflexivity |].
  revert HD.
  generalize (Capture.durationToCaptureAfterEvent v) as D.
  generalize (Audio.DetectionTime detection) as occ. intros occ D HD.
  unfold GoTime.slept, GoTime.Since.
  assert (Hmax : GoTime.maxDuration = 9223372036854775807) by reflexivity.
  assert (Hmin : GoTime.minDuration = - 9223372036854775808) by reflexivity.
  assert (H64 : 2 ^ 64 = 18446744073709551616) by reflexivity.
  destruct (Z_le_gt_dec (D - GoTime.Sub now occ) GoTime.maxDuration) as [Hle | Hgt].
  - rewrite wrap64_exact
      by (unfold GoTime.is_Duration, GoTime.Sub in *; lia).
    unfold GoTime.Sub in *. lia.
  - rewrite wrap64_above by (unfold GoTime.Sub in *; lia).
    unfold GoTime.Sub in *. lia.
Qed.

Lemma Save_sends_by_the_end_of_the_window_witness :
  0 <= Capture.durationToCaptureAfterEvent front <= GoTime.maxDuration /\
  Capture.send_time (63000000000 * GoTime.Second)
    (Capture.Save front (63000000000 * GoTime.Second)
       {| Audio.Decibel := 80%float; Audio.DetectionTime := GoTime.zeroTime |})
  = Some (63000000000 * GoTime.Second).
Proof.
  assert (HD : 0 <= Capture.durationToCaptureAfterEvent front
               <= GoTime.maxDuration) by (vm_compute; split; discriminate).
  split; [exact HD |].
  destruct (Save_sends_by_the_end_of_the_window front
              (63000000000 * GoTime.Second)
              {| Audio.Decibel := 80%float;
                 Audio.DetectionTime := GoTime.zeroTime |} HD)
    as (t & Hsend & _ & Heq).
  rewrite Hsend, Heq by (vm_compute; discriminate).
  vm_compute. reflexivity.
Defined.

(** ** No playback before the buffer is full *)

Lemma Append_keeps_Full (v v' : Buffer.VideoFrameBuffer) (frame : Mat)
    (evs : list Buffer.Event) :
  Buffer.Append v frame = Some (v', evs) ->
  Buffer.Full v = true -> Buffer.Full v' = true.
Proof.
  unfold Buffer.Append, Buffer.Full, len. intros Happ Hfull.
  apply Z.eqb_eq in Hfull.
  destruct (Z.ltb_spec (Buffer.idx v) (Z.of_nat (length (Buffer.frames v))))
    as [Hlt | _]; [lia |].
  destruct (Buffer.frames v) as [| old rest] eqn:Hfr; [discriminate |].
  injection Happ as <- _. cbn [Buffer.frames Buffer.idx].
  apply Z.eqb_eq. rewrite Hfull, length_app. cbn [length]. lia.
Qed.

Lemma step_idle_until_full (v : Capture.VideoProfile) (files0 : Files)
    (s s' : Capture.System) :
  idle_until_full files0 s -> Capture.step v s s' -> idle_until_full files0 s'.
Proof.
  intros Hinv Hstep.
  inversion Hstep; subst; unfold idle_until_full;
    cbn [Capture.frameBuffer Capture.playbacks Capture.playback Capture.files
         Capture.logged];
    intros Hfull.
  - exact (Hinv Hfull).
  - exact (Hinv Hfull).
  - exact (Hinv Hfull).
  - destruct (Hinv Hfull) as (Hnone & _). rewrite Hnone in H0. discriminate.
  - rewrite (Save_when_not_full w _ _ width height fps Hfull) in H0.
    injection H0 as <- <-. exact (Hinv Hfull).
  - rewrite (Save_when_not_full w _ _ width height fps Hfull) in H0.
    discriminate.
  - exact (Hinv Hfull).
  - destruct (Buffer.Full (Capture.frameBuffer s)) eqn:Hwas.
    + rewrite (Append_keeps_Full _ _ _ _ H0 Hwas) in Hfull. discriminate.
    + exact (Hinv Hwas).
  - destruct (Hinv Hfull) as (Hnone & _). rewrite Hnone in H. discriminate.
Qed.

(** X15.  A capture stream starts no playback and writes no clip before its
    buffer is full: in every state it can reach with the buffer not yet
    full, whatever save signals arrived, there is no playback, the
    [playback] variable is nil and the clip files are those found at the
    start. *)
Theorem no_playback_before_the_buffer_is_full (v : Capture.VideoProfile)
    (b : Buffer.VideoFrameBuffer) (files0 : Files) (s : Capture.System) :
  Capture.reachable v (Capture.initial b files0) s ->
  Buffer.Full (Capture.frameBuffer s) = false ->
  Capture.playbacks s = [] /\ Capture.playback s = None /\
  Capture.files s = files0.
Proof.
  intros Hreach. change (idle_until_full files0 s).
  induction Hreach as [| s1 s2 _ IH Hstep].
  - intros _. split; [reflexivity |]. split; reflexivity.
  - exact (step_idle_until_full v files0 s1 s2 IH Hstep).
Qed.

(** One frame captured into two slots, then a save signal: the save fails
    and nothing is played. *)
Lemma no_playback_before_the_buffer_is_full_witness :
  Buffer.NewVideoFrameBuffer 2 = Some fresh_buffer /\
  exists s,
    Capture.reachable front (Capture.initial fresh_buffer no_files) s /\
    Buffer.idx (Capture.frameBuffer s) = 1 /\
    In (Capture.EvLog "error saving video: %v\n"
          [AErr (Errorf "video frame buffer is not full (%d/%d)" [1; 2])])
       (Capture.log s) /\
    Capture.playbacks s = [] /\ Capture.files s = no_files.
Proof.
  split; [reflexivity |].
  pose proof (Capture.reach_start front (Capture.initial fresh_buffer no_files)) as H.
  eapply Capture.reach_step in H;
    [| eapply (Capture.step_frame front _ (MatData 1 false));
       [reflexivity | vm_compute; reflexivity] ].
  evaluate_state H.
  eapply Capture.reach_step in H;
    [| eapply Capture.step_save_idle; reflexivity ].
  eapply Capture.reach_step in H;
    [| eapply (Capture.step_save_failed front _ good_writer an_instant
                 1280 720 120%float);
       [reflexivity | vm_compute; reflexivity] ].
  evaluate_state H.
  eexists. split; [exact H |].
  split; [reflexivity |]. split; [left; reflexivity |].
  destruct (no_playback_before_the_buffer_is_full front fresh_buffer no_files
              _ H eq_refl) as (Hnone & _ & Hfiles).
  split; [exact Hnone | exact Hfiles].
Defined.
